(** * Husky UI widgets: edit-toolbar and auto-complete

    A shallow embedding of the two widgets of the repository.  Each widget
    is a record of the fields the source keeps on [this]; every method is a
    function on that record.  A method that can raise a JavaScript exception
    returns a [completion]. *)

From stdpp Require Import base option list strings gmap fin_maps fin_sets
  pretty.

(** ** JavaScript values the widgets rely on *)

(** The only run-time errors the widgets can raise themselves come from reading
    a property of [undefined] or [null]. *)
Inductive js_error := TypeError.

(** The outcome of running a method: a result, an exception, or the bound of
    a modelled loop being reached before the loop left by its own test. *)
Inductive completion (A : Type) :=
| Normal (a : A)
| Throw (e : js_error)
| Unfinished.
Arguments Normal {A} a.
Arguments Throw {A} e.
Arguments Unfinished {A}.

Global Instance completion_ret : MRet completion := λ A a, Normal a.
Global Instance completion_bind : MBind completion := λ A B f c,
  match c with
  | Normal a => f a
  | Throw e => Throw e
  | Unfinished => Unfinished
  end.

(** Truthiness of an optional string property: [undefined], [null] and the
    empty string are falsy. *)
Definition truthy (v : option string) : bool :=
  match v with
  | Some s => negb (bool_decide (s = ""))
  | None => false
  end.

(** What string concatenation shows for an optional property. *)
Definition js_show (v : option string) : string := default "undefined" v.

(** [String.prototype.toLowerCase] on the ASCII letters. *)
Definition lower_ascii (c : Ascii.ascii) : Ascii.ascii :=
  let n := Ascii.nat_of_ascii c in
  if (65 <=? n)%nat && (n <=? 90)%nat then Ascii.ascii_of_nat (n + 32) else c.

Fixpoint toLowerCase (s : string) : string :=
  match s with
  | EmptyString => EmptyString
  | String c s' => String (lower_ascii c) (toLowerCase s')
  end.

(** [String.prototype.trim] for the ASCII white space. *)
Fixpoint trim_left (s : string) : string :=
  match s with
  | EmptyString => EmptyString
  | String c s' => if Ascii.is_space c then trim_left s' else s
  end.

Definition trim (s : string) : string :=
  String.rev (trim_left (String.rev (trim_left s))).

(** ** The class attribute of an element

    A class attribute is the list of its tokens.  The operations follow the
    jQuery calls that [this.sandbox.dom] hands its arguments to
    ([$(selector).addClass(classes)], [$(selector).removeClass(classes)]):
    the argument is split at white space, a class is added at the end unless
    it is present, and every occurrence of a removed class goes away. *)
Definition add_token (cs : list string) (t : string) : list string :=
  if bool_decide (t ∈ cs) then cs else cs ++ [t].

Definition addClass (classes : string) (cs : list string) : list string :=
  foldl add_token cs (String.words classes).

Definition removeClass (classes : string) (cs : list string) : list string :=
  filter (λ t, t ∉ String.words classes) cs.

Definition hasClass (c : string) (cs : list string) : bool :=
  bool_decide (c ∈ cs).

(** ** The auto-complete widget (husky_components/auto-complete/main.js) *)
Module AutoComplete.

(** A suggestion handed over by the typeahead library: the context object
    the template reads [id] and [name] from. *)
Record suggestion := { id : string; name : string }.

(** The options the widget itself reads; the remaining keys are passed on
    to the typeahead library unchanged. *)
Record options_t := {
  instanceName : string;
  noNewValues : bool;
  successClass : string;
  failClass : string;
  valueName : option string;
  value : option (gmap string string);
}.

Definition defaults : options_t := {|
  instanceName := "undefined";
  noNewValues := false;
  successClass := "husky-auto-complete-success";
  failClass := "husky-auto-complete-error";
  valueName := None;
  value := None;
|}.

(** The fields of [this] that the event handlers read and write, together
    with the two DOM nodes they touch: the text input [$valueField] (its
    value and its data-id attribute) and the container [$el] (its class
    attribute). *)
Record autocomplete := {
  options : options_t;
  matched : bool;
  matches : list suggestion;
  field_value : string;
  field_data_id : string;
  el_classes : list string;
  emitted : list string;
}.

Definition set_matched (b : bool) (this : autocomplete) : autocomplete :=
  {| options := options this; matched := b; matches := matches this;
     field_value := field_value this; field_data_id := field_data_id this;
     el_classes := el_classes this; emitted := emitted this |}.

Definition set_matches (ms : list suggestion) (this : autocomplete)
  : autocomplete :=
  {| options := options this; matched := matched this; matches := ms;
     field_value := field_value this; field_data_id := field_data_id this;
     el_classes := el_classes this; emitted := emitted this |}.

Definition set_el_classes (cs : list string) (this : autocomplete)
  : autocomplete :=
  {| options := options this; matched := matched this;
     matches := matches this;
     field_value := field_value this; field_data_id := field_data_id this;
     el_classes := cs; emitted := emitted this |}.

Definition emit (ev : string) (this : autocomplete) : autocomplete :=
  {| options := options this; matched := matched this;
     matches := matches this;
     field_value := field_value this; field_data_id := field_data_id this;
     el_classes := el_classes this; emitted := emitted this ++ [ev] |}.

Definition getEvent (this : autocomplete) (append : string) : string :=
  "husky.auto-complete." +:+ append.

Definition getValueID (o : options_t) : option string :=
  match value o with
  | Some v => Some (js_show (v !! "id"))
  | None => None
  end.

Definition getValueName (o : options_t) : string :=
  match value o with
  | Some v => js_show (valueName o ≫= λ k, v !! k)
  | None => ""
  end.

(** [initialize] followed by [render], on a container without classes: the
    flags are set, the container gets its class and the input is created
    from the start value.  [o] is the result of
    [extend({}, defaults, this.options)]. *)
Definition initialize (o : options_t) : autocomplete := {|
  options := o;
  matched := true;
  matches := [];
  field_value := getValueName o;
  field_data_id := default "null" (getValueID o);
  el_classes := addClass "husky-auto-complete" [];
  emitted := [];
|}.

Definition getClosestMatch (this : autocomplete) : option suggestion :=
  match matches this with
  | m :: _ => Some m
  | [] => None
  end.

Definition getValueFieldValue (this : autocomplete) : string :=
  trim (field_value this).

Definition setValueFieldValue (v : string) (this : autocomplete)
  : autocomplete :=
  {| options := options this; matched := matched this;
     matches := matches this;
     field_value := v; field_data_id := field_data_id this;
     el_classes := el_classes this; emitted := emitted this |}.

Definition setValueFieldId (i : string) (this : autocomplete)
  : autocomplete :=
  {| options := options this; matched := matched this;
     matches := matches this;
     field_value := field_value this; field_data_id := i;
     el_classes := el_classes this; emitted := emitted this |}.

Definition isMatched (this : autocomplete) : bool := matched this.

(** Reading a property of the closest match: [this.getClosestMatch().name]
    raises when there is no match. *)
Definition closest (this : autocomplete) : completion suggestion :=
  match getClosestMatch this with
  | Some m => Normal m
  | None => Throw TypeError
  end.

(** The inner test [this.getClosestMatch !== null] compares the method, not
    its result, and therefore always holds. *)
Definition isMatchedExactly (this : autocomplete) : completion bool :=
  if isMatched this then
    m ← closest this;
    if bool_decide (toLowerCase (getValueFieldValue this)
                    = toLowerCase (name m))
    then mret true else mret false
  else mret false.

Definition setSuccessState (this : autocomplete) : autocomplete :=
  set_el_classes (addClass (successClass (options this)) (el_classes this))
                 this.

Definition setFailState (this : autocomplete) : autocomplete :=
  set_el_classes (addClass (failClass (options this)) (el_classes this))
                 this.

Definition setNoState (this : autocomplete) : autocomplete :=
  let this1 :=
    set_el_classes
      (removeClass (successClass (options this)) (el_classes this)) this in
  set_el_classes
    (removeClass (failClass (options this1)) (el_classes this1)) this1.

(** Snapping the field: value first, then data-id, each read from a fresh
    call of [getClosestMatch]. *)
Definition snap (this : autocomplete) : completion autocomplete :=
  m1 ← closest this;
  let this1 := setValueFieldValue (name m1) this in
  m2 ← closest this1;
  mret (setValueFieldId (id m2) this1).

Definition handleBlur (this : autocomplete) : completion autocomplete :=
  if noNewValues (options this) then
    if isMatched this && bool_decide (getClosestMatch this ≠ None) then
      this' ← snap this;
      mret (setSuccessState this')
    else mret (setFailState this)
  else
    is_exact ← isMatchedExactly this;
    if is_exact : bool then snap this else mret this.

(** The handlers registered by [setEvents] and the template callback
    registered by [bindTypeahead]. *)
Definition on_selected (datum : suggestion) (this : autocomplete)
  : autocomplete :=
  setValueFieldId (id datum) (emit (getEvent this "select") this).

Definition on_keydown (this : autocomplete) : autocomplete :=
  setNoState (set_matches [] (set_matched false this)).

Definition on_template (context : suggestion) (this : autocomplete)
  : autocomplete :=
  set_matched true (set_matches (matches this ++ [context]) this).

(** The callbacks handed to the typeahead library for prefetched and remote
    data announce themselves through [sandbox.emit]; the data they pass on is the
    library's business. *)
Definition on_prefetch (this : autocomplete) : autocomplete :=
  emit (getEvent this "prefetch-data") this.

Definition on_beforeSend (this : autocomplete) : autocomplete :=
  emit (getEvent this "remote-data-load") this.

Definition on_remote (this : autocomplete) : autocomplete :=
  emit (getEvent this "remote-data") this.

(** What can happen to a widget: the three DOM events of [setEvents], the
    callbacks of [bindTypeahead], and the browser changing the text of the
    input. *)
Inductive event :=
| Selected (datum : suggestion)
| Keydown
| Blur
| Template (context : suggestion)
| Prefetch
| BeforeSend
| Remote
| Input (text : string).

Definition handle (e : event) (this : autocomplete)
  : completion autocomplete :=
  match e with
  | Selected d => mret (on_selected d this)
  | Keydown => mret (on_keydown this)
  | Blur => handleBlur this
  | Template c => mret (on_template c this)
  | Prefetch => mret (on_prefetch this)
  | BeforeSend => mret (on_beforeSend this)
  | Remote => mret (on_remote this)
  | Input v => mret (setValueFieldValue v this)
  end.

Fixpoint run (es : list event) (this : autocomplete)
  : completion autocomplete :=
  match es with
  | [] => mret this
  | e :: es' => this' ← handle e this; run es' this'
  end.

End AutoComplete.

(** ** The DOM below a widget's element

    Modelled from the spec: of the DOM facility the widgets call through
    [this.sandbox.dom], the adapter under src/ defines [createElement],
    [append], [addClass] and [removeClass], each by handing its arguments to
    the jQuery call of the same name; [find], [show], [hide], [remove],
    [html], [data], [parents] and [prependClass] are not under src/ and are
    taken, with the spec, as the same delegation.  An element carries what
    the widgets read and write: its tag, its class attribute, its data-id
    attribute, whether it is shown, and its children.  Markup inside a title
    is kept as one text node, and an id is written into a data-id attribute
    and read back from it unchanged. *)
Module Dom.

#[warnings="-register-all"]
Inductive node :=
| Elem (tag : string) (classes : list string) (data_id : option string)
       (shown : bool) (children : list node)
| Text (s : string).

(** An element is referred to by the child indices leading to it. *)
Definition path := list nat.

Definition tag_of (n : node) : option string :=
  match n with Elem t _ _ _ _ => Some t | Text _ => None end.
Definition classes_of (n : node) : list string :=
  match n with Elem _ cs _ _ _ => cs | Text _ => [] end.
Definition data_id_of (n : node) : option string :=
  match n with Elem _ _ d _ _ => d | Text _ => None end.
Definition shown_of (n : node) : bool :=
  match n with Elem _ _ _ sh _ => sh | Text _ => true end.
Definition children_of (n : node) : list node :=
  match n with Elem _ _ _ _ ks => ks | Text _ => [] end.

(** Simple selectors: [tag], [.class], [[data-id="i"]]. *)
Definition is_tag (t : string) (n : node) : bool :=
  bool_decide (tag_of n = Some t).
Definition has_class (c : string) (n : node) : bool :=
  match n with Elem _ cs _ _ _ => hasClass c cs | Text _ => false end.
Definition has_data_id (i : string) (n : node) : bool :=
  bool_decide (data_id_of n = Some i).
Definition nothing (n : node) : bool := false.

Definition map_classes (f : list string → list string) (n : node) : node :=
  match n with
  | Elem t cs d sh ks => Elem t (f cs) d sh ks
  | Text s => Text s
  end.
Definition set_shown (b : bool) (n : node) : node :=
  match n with
  | Elem t cs d _ ks => Elem t cs d b ks
  | Text s => Text s
  end.
Definition set_children (ks : list node) (n : node) : node :=
  match n with
  | Elem t cs d sh _ => Elem t cs d sh ks
  | Text s => Text s
  end.
Definition append_children (new : list node) (n : node) : node :=
  set_children (children_of n ++ new) n.

(** [prependClass] puts the classes in front of the class attribute. *)
Definition prependClass (classes : string) (cs : list string)
  : list string := String.words classes ++ cs.

(** What [html(element, s)] and an HTML string leave inside an element. *)
Definition html (s : string) : list node :=
  if bool_decide (s = "") then [] else [Text s].

(** [modify ctx sel f inside n] runs a jQuery call [f] on the result of
    [find]: on every descendant of [n] that matches [sel] and lies below an
    element matching [ctx]; [inside] says that [n] itself already lies
    below one, so the plain [find(sel, n)] starts with [inside = true]. *)
Fixpoint modify (ctx sel : node → bool) (f : node → node) (inside : bool)
    (n : node) {struct n} : node :=
  match n with
  | Elem t cs d sh ks =>
      Elem t cs d sh
        ((λ k, let k' := modify ctx sel f (inside || ctx k) k in
               if inside && sel k then f k' else k') <$> ks)
  | Text s => Text s
  end.

(** [prune ctx sel inside n] is [remove] on the same selection. *)
Fixpoint prune (ctx sel : node → bool) (inside : bool) (n : node)
    {struct n} : node :=
  match n with
  | Elem t cs d sh ks =>
      Elem t cs d sh
        (omap (λ k, if inside && sel k then None
                    else Some (prune ctx sel (inside || ctx k) k)) ks)
  | Text s => Text s
  end.

(** All descendants of a node, in document order. *)
Fixpoint descendants (n : node) : list node :=
  match n with
  | Elem _ _ _ _ ks => concat ((λ k, k :: descendants k) <$> ks)
  | Text _ => []
  end.

(** The descendants matching a selector, as paths in document order. *)
Fixpoint find_paths (sel : node → bool) (n : node) : list path :=
  match n with
  | Elem _ _ _ _ ks =>
      (fix go (i : nat) (ks : list node) : list path :=
         match ks with
         | [] => []
         | k :: ks' =>
             (if sel k then [[i]] else [])
               ++ ((i ::.) <$> find_paths sel k) ++ go (S i) ks'
         end) 0 ks
  | Text _ => []
  end.

(** The outermost descendants matching a selector: those that do not lie
    below another match.  For a data-id that tags one element this is that
    element. *)
Fixpoint outer (sel : node → bool) (n : node) : list node :=
  match n with
  | Elem _ _ _ _ ks => concat ((λ k, if sel k then [k] else outer sel k) <$> ks)
  | Text _ => []
  end.

(** The descendants lying below an element that matches [ctx] (all of them
    when [inside]), in document order: what [find(..., $ctx)] searches. *)
Fixpoint below (ctx : node → bool) (inside : bool) (n : node) {struct n}
  : list node :=
  match n with
  | Elem _ _ _ _ ks =>
      concat ((λ k, (if inside then [k] else [])
                      ++ below ctx (inside || ctx k) k) <$> ks)
  | Text _ => []
  end.

Fixpoint node_at (p : path) (n : node) : option node :=
  match p with
  | [] => Some n
  | i :: p' => children_of n !! i ≫= node_at p'
  end.

Fixpoint update_at (p : path) (f : node → node) (n : node) : node :=
  match p with
  | [] => f n
  | i :: p' =>
      match n with
      | Elem t cs d sh ks => Elem t cs d sh (alter (update_at p' f) i ks)
      | Text s => Text s
      end
  end.

(** [parents(target, 'li').eq(0)]: the nearest proper ancestor that is a
    list item.  [rev_prefixes p] lists the proper prefixes of [p], longest
    first. *)
Fixpoint rev_prefixes (p : path) : list path :=
  match p with
  | [] => []
  | i :: p' => ((i ::.) <$> rev_prefixes p') ++ [[]]
  end.

Definition nearest (sel : node → bool) (p : path) (root : node)
  : option path :=
  head (filter (λ q, from_option sel false (node_at q root))
               (rev_prefixes p)).

End Dom.

(** ** Toolbar items

    The data structure documented at the head of the edit-toolbar source,
    with the two fields the widget adds itself ([parentId], [loading]).
    An absent or falsy [disabled] is [false]; a callback is the handle of a
    JavaScript function whose body lies outside the widget. *)
Module Item.

#[warnings="-register-all"]
Inductive t := Build {
  id : option string;
  title : option string;
  icon : option string;
  disabledIcon : option string;
  disabled : bool;
  iconSize : option string;
  class : option string;
  group : option string;
  type : option string;
  callback : option nat;
  items : option (list t);
  divider : bool;
  parentId : option string;
  loading : bool;
}.

Definition set_id (v : option string) (i : t) : t :=
  Build v (title i) (icon i) (disabledIcon i) (disabled i) (iconSize i)
        (class i) (group i) (type i) (callback i) (items i) (divider i)
        (parentId i) (loading i).

Definition set_disabled (v : bool) (i : t) : t :=
  Build (id i) (title i) (icon i) (disabledIcon i) v (iconSize i)
        (class i) (group i) (type i) (callback i) (items i) (divider i)
        (parentId i) (loading i).

Definition set_parentId (v : option string) (i : t) : t :=
  Build (id i) (title i) (icon i) (disabledIcon i) (disabled i) (iconSize i)
        (class i) (group i) (type i) (callback i) (items i) (divider i)
        v (loading i).

Definition set_loading (v : bool) (i : t) : t :=
  Build (id i) (title i) (icon i) (disabledIcon i) (disabled i) (iconSize i)
        (class i) (group i) (type i) (callback i) (items i) (divider i)
        (parentId i) v.

(** [item.items && item.items.length > 0] *)
Definition has_subitems (i : t) : bool :=
  match items i with
  | Some (_ :: _) => true
  | _ => false
  end.

End Item.

(** ** The edit-toolbar widget *)
Module EditToolbar.
Import Dom.

(** The options after [extend(true, {}, defaults, this.options)]; [data]
    is [None] when it was set to [null]. *)
Record options_t := {
  url : option string;
  data : option (list Item.t);
  instanceName : string;
}.

Definition defaults : options_t :=
  {| url := None; data := Some []; instanceName := "" |}.

(** What the widget hands to its collaborators. *)
Inductive effect :=
| Emit (event : string) (payload : option Item.t)
| Call (callback : nat)
| Log (message : string) (detail : option string)
| Load (from : string)
| Start (component : string).

(** The three callbacks of [bindCustomEvents]. *)
Inductive handler := OnDisable | OnEnable | OnLoading.

(** [this]: the options, the associative array [items] ([None] while
    [render] has not run; its keys are the item ids, and the members an
    array has of itself, such as [length], are no ids here), the element the
    widget lives in ([this.options.el], which is [this.$el]) with everything
    below it, the state of the id generator [sandbox.util.uniqueId], the
    subscriptions made through [sandbox.on], the delegated DOM events, and
    the effects so far.  Items are records: the data reach [render] as a
    tree, after the deep copy of [initialize] or from the response to the
    request, so no item object occurs twice in it; a stored parent keeps
    its subitems as they came, of which the widget later reads only the
    number. *)
Record toolbar := {
  options : options_t;
  items : option (gmap string Item.t);
  el : node;
  next_id : nat;
  subscriptions : list (string * handler);
  dom_events : list (string * string);
  trace : list effect;
}.

Definition set_items (v : option (gmap string Item.t)) (this : toolbar)
  : toolbar :=
  {| options := options this; items := v; el := el this;
     next_id := next_id this; subscriptions := subscriptions this;
     dom_events := dom_events this; trace := trace this |}.

Definition set_el (v : node) (this : toolbar) : toolbar :=
  {| options := options this; items := items this; el := v;
     next_id := next_id this; subscriptions := subscriptions this;
     dom_events := dom_events this; trace := trace this |}.

Definition set_next_id (v : nat) (this : toolbar) : toolbar :=
  {| options := options this; items := items this; el := el this;
     next_id := v; subscriptions := subscriptions this;
     dom_events := dom_events this; trace := trace this |}.

Definition subscribe (ev : string) (h : handler) (this : toolbar)
  : toolbar :=
  {| options := options this; items := items this; el := el this;
     next_id := next_id this;
     subscriptions := subscriptions this ++ [(ev, h)];
     dom_events := dom_events this; trace := trace this |}.

Definition delegate (ev selector : string) (this : toolbar) : toolbar :=
  {| options := options this; items := items this; el := el this;
     next_id := next_id this; subscriptions := subscriptions this;
     dom_events := dom_events this ++ [(ev, selector)];
     trace := trace this |}.

Definition perform (e : effect) (this : toolbar) : toolbar :=
  {| options := options this; items := items this; el := el this;
     next_id := next_id this; subscriptions := subscriptions this;
     dom_events := dom_events this; trace := trace this ++ [e] |}.

(** [this.items[key]], followed by a property read on the result. *)
Definition get_item (this : toolbar) (key : string) : completion Item.t :=
  match items this with
  | Some m =>
      match m !! key with
      | Some it => Normal it
      | None => Throw TypeError
      end
  | None => Throw TypeError
  end.

(** [this.items[key] = it] *)
Definition put_item (key : string) (it : Item.t) (this : toolbar)
  : toolbar :=
  set_items (insert key it <$> items this) this.

Definition createEventName (this : toolbar) (postFix : string) : string :=
  "husky.edit-toolbar."
    +:+ (if truthy (Some (instanceName (options this)))
         then instanceName (options this) +:+ "." else "")
    +:+ postFix.

Definition INITIALIZED (this : toolbar) := createEventName this "initialized".
Definition ITEM_ENABLE (this : toolbar) := createEventName this "item.enable".
Definition ITEM_DISABLE (this : toolbar) :=
  createEventName this "item.disable".
Definition ITEM_LOADING (this : toolbar) :=
  createEventName this "item.loading".

Definition emitEvent (postFix : string) (payload : option Item.t)
    (this : toolbar) : toolbar :=
  perform (Emit (createEventName this postFix) payload) this.

Definition createIconClass (item : Item.t) (enabled : bool) : string :=
  "icon-" +:+ js_show
    (if enabled then Item.icon item
     else if truthy (Item.disabledIcon item) then Item.disabledIcon item
     else Item.icon item).

(** [classArray.join(' ')] *)
Definition join (parts : list string) : string :=
  match parts with
  | [] => ""
  | p :: ps => foldl (λ acc q, acc +:+ " " +:+ q) p ps
  end.

Definition createIconSupportClass (item : Item.t) (enabled : bool)
  : string :=
  if truthy (Item.icon item) then
    join ([createIconClass item enabled; "icon"]
            ++ (if truthy (Item.iconSize item)
                then [js_show (Item.iconSize item)] else []))
  else "".

(** The selections of [toggleEnabled] and [itemLoading]:
    [$item = find('[data-id="id"]', $el)], the links and loaders found
    below [$item], and [find('[data-id="id"] .icon', $el)]. *)
Definition on_item (id : string) (f : node → node) : node → node :=
  modify nothing (has_data_id id) f true.
Definition below_item (id : string) (sel : node → bool) (f : node → node)
  : node → node :=
  modify (has_data_id id) sel f false.
Definition remove_below_item (id : string) (sel : node → bool)
  : node → node :=
  prune (has_data_id id) sel false.

(** The handler bound to the end of the highlight animation runs later and
    is no part of this call. *)
Definition toggleEnabled (enabled : bool) (id : string)
    (highlight : option bool) (this : toolbar) : completion toolbar :=
  item ← get_item this id;
  let enabledIconClass := createIconClass item true in
  let disabledIconClass := createIconClass item false in
  let item1 := Item.set_disabled (negb enabled) item in
  let '(item2, el1) :=
    if Item.loading item1 then
      (Item.set_loading false item1,
       below_item id (is_tag "a") (set_shown true)
         (remove_below_item id (has_class "item-loader") (el this)))
    else (item1, el this) in
  let el2 :=
    if bool_decide (highlight ≠ Some false)
    then on_item id (map_classes (addClass "highlight-animation")) el1
    else el1 in
  let el3 :=
    if enabled then
      below_item id (has_class "icon")
        (map_classes (λ cs, prependClass enabledIconClass
                              (removeClass disabledIconClass cs)))
        (on_item id (map_classes (removeClass "disabled")) el2)
    else
      below_item id (has_class "icon")
        (map_classes (λ cs, prependClass disabledIconClass
                              (removeClass enabledIconClass cs)))
        (on_item id (map_classes (addClass "disabled")) el2) in
  mret (set_el el3 (put_item id item2 this)).

Definition loader : node := Elem "span" ["item-loader"] None true [].

Definition itemLoading (id : string) (this : toolbar)
  : completion toolbar :=
  item ← get_item this id;
  if Item.loading item then mret this
  else
    let el1 := below_item id (is_tag "a") (set_shown false) (el this) in
    let el2 := on_item id (append_children [loader]) el1 in
    mret (perform (Start "loader@husky")
            (set_el el2 (put_item id (Item.set_loading true item) this))).

Definition changeMainListItem (listElement : option path) (item : Item.t)
    (this : toolbar) : toolbar :=
  match listElement with
  | None => this
  | Some p =>
      let listItems :=
        match node_at p (el this) with
        | Some n => (p ++.) <$> find_paths (is_tag "span") n
        | None => []
        end in
      let at_eq (i : nat) (f : node → node) (root : node) : node :=
        match listItems !! i with
        | Some q => update_at q f root
        | None => root
        end in
      let el1 :=
        if truthy (Item.icon item) then
          at_eq 0
            (map_classes
               (λ cs, addClass
                        (createIconSupportClass item
                           (negb (Item.disabled item)))
                        (removeClass "" cs)))
            (el this)
        else el this in
      let el2 :=
        if truthy (Item.title item)
        then at_eq 1 (set_children (html (js_show (Item.title item)))) el1
        else el1 in
      set_el el2 this
  end.

Definition triggerSelectEvent (item : Item.t) (parent : option path)
    (this : toolbar) : completion toolbar :=
  this1 ←
    (if truthy (Item.parentId item) then
       parentItem ← get_item this (js_show (Item.parentId item));
       if bool_decide (Item.type parentItem = Some "select")
       then mret (changeMainListItem parent item this)
       else mret this
     else mret this);
  match Item.callback item with
  | Some cb => mret (perform (Call cb) this1)
  | None => mret (emitEvent "item.select" (Some item) this1)
  end.

(** A click delivered to the list item at [target]. *)
Definition selectItem (target : path) (this : toolbar)
  : completion toolbar :=
  item ← get_item this (js_show (node_at target (el this) ≫= data_id_of));
  let parent := nearest (is_tag "li") target (el this) in
  if Item.has_subitems item || Item.loading item then mret this
  else if negb (Item.disabled item)
       then triggerSelectEvent item parent this
       else mret this.

(** *** Rendering

    [this.sandbox.util.uniqueId] is the id generator the widget is given;
    the widget only relies on its handing out a new string at every call.
    [uniqueId n] is the string handed out by call number [n]. *)
Section Render.
Variable uniqueId : nat → string.

(** The loop [do { item.id = uniqueId(); } while (!!this.items[item.id])],
    run for at most [fuel] rounds. *)
Fixpoint generate (fuel : nat) (its : gmap string Item.t) (n : nat)
  : completion (string * nat) :=
  match fuel with
  | 0 => Unfinished
  | S fuel' =>
      let candidate := uniqueId n in
      if bool_decide (is_Some (its !! candidate))
      then generate fuel' its (S n)
      else Normal (candidate, S n)
  end.

(** The loop cannot run longer than there are stored items, plus one. *)
Definition checkItemId (item : Item.t) (its : gmap string Item.t)
    (n : nat) : completion (Item.t * nat) :=
  '(item1, n1) ←
    (if negb (truthy (Item.id item))
        || bool_decide (is_Some (its !! js_show (Item.id item)))
     then '(fresh, n') ← generate (S (size its)) its n;
          mret (Item.set_id (Some fresh) item, n')
     else mret (item, n));
  let item2 :=
    if negb (Item.disabled item1) then Item.set_disabled false item1
    else item1 in
  mret (item2, n1).

(** The body of the [foreach] in [createDropdownMenu], threading the
    list items built so far, the variable [classString], [this.items]
    and the generator. *)
Definition menu_state : Type :=
  list node * string * gmap string Item.t * nat.

Definition createDropdownItem (parent : Item.t) (st : menu_state)
    (item : Item.t) : completion menu_state :=
  let '(lis, classString, its, n) := st in
  if Item.divider item then
    mret (lis ++ [Elem "li" ["divider"] None true []],
          classString, its, n)
  else
    let item0 := Item.set_parentId (Item.id parent) item in
    '(item1, n1) ← checkItemId item0 its n;
    let key := js_show (Item.id item1) in
    let its1 := <[key := item1]> its in
    let classString1 :=
      if Item.disabled item1 then "disabled" else classString in
    mret (lis ++ [Elem "li" (String.words classString1) (Some key) true
                    [Elem "a" [] None true
                       (html (js_show (Item.title item1)))]],
          classString1, its1, n1).

Fixpoint foreach {S A : Type} (body : S → A → completion S) (l : list A)
    (st : S) : completion S :=
  match l with
  | [] => mret st
  | a :: l' => st' ← body st a; foreach body l' st'
  end.

Definition createDropdownMenu (parent : Item.t)
    (its : gmap string Item.t) (n : nat)
  : completion (node * gmap string Item.t * nat) :=
  '(lis, _, its', n') ←
    foreach (createDropdownItem parent)
            (default [] (Item.items parent)) ([], "", its, n);
  mret (Elem "ul" ["edit-toolbar-dropdown-menu"] None true lis, its', n').

(** The list a rendered item is appended to. *)
Inductive side := LeftList | RightList.

Definition render_state : Type :=
  list (side * node) * gmap string Item.t * nat.

(** The body of the [foreach] in [render]. *)
Definition renderItem (st : render_state) (item : Item.t)
  : completion render_state :=
  let '(built, its, n) := st in
  '(item1, n1) ← checkItemId item its n;
  let key := js_show (Item.id item1) in
  let its1 := <[key := item1]> its in
  let classArray :=
    ["edit-toolbar-item"]
      ++ (if truthy (Item.class item1)
          then [js_show (Item.class item1)] else [])
      ++ (if Item.disabled item1 then ["disabled"] else []) in
  let addTo :=
    if bool_decide (Item.group item1 = Some "right")
    then RightList else LeftList in
  let spans :=
    [Elem "span"
       (String.words
          (createIconSupportClass item1 (negb (Item.disabled item1))))
       None true [];
     Elem "span" ["title"] None true
       (html (if truthy (Item.title item1)
              then js_show (Item.title item1) else ""))] in
  match Item.items item1 with
  | Some _ =>
      '(menu, its2, n2) ← createDropdownMenu item1 its1 n1;
      mret (built ++ [(addTo,
               Elem "li" (String.words (join classArray)) (Some key) true
                 [Elem "a" (addClass "dropdown-toggle" []) None true spans;
                  menu])],
            its2, n2)
  | None =>
      mret (built ++ [(addTo,
               Elem "li" (String.words (join classArray)) (Some key) true
                 [Elem "a" [] None true spans])],
            its1, n1)
  end.

Definition skeleton : node :=
  Elem "div" ["edit-toolbar-container"] None true
    [Text "   ";
     Elem "nav" ["edit-toolbar-nav"] None true
       [Text "       ";
        Elem "ul" ["edit-toolbar-left"] None true [];
        Text "       ";
        Elem "ul" ["edit-toolbar-right"] None true [];
        Text "   "]].

(** [append(addTo, $listItem)] for every built item: [$left] and
    [$right] were found right after the skeleton went in, so each of
    their elements receives its items in the order of the data. *)
Definition goes_to (sd : side) (target : node) : bool :=
  match sd with
  | LeftList => has_class "edit-toolbar-left" target
  | RightList => has_class "edit-toolbar-right" target
  end.

Definition chosen (built : list (side * node)) (target : node)
  : list node :=
  (filter (λ b, goes_to b.1 target) built).*2.

Definition place (built : list (side * node)) : node → node :=
  modify nothing
    (λ k, has_class "edit-toolbar-left" k
          || has_class "edit-toolbar-right" k)
    (λ k, append_children (chosen built k) k) true.

Definition render (data : list Item.t) (this : toolbar)
  : completion toolbar :=
  let el1 := append_children [skeleton] (el this) in
  '(built, its, n) ← foreach renderItem data ([], ∅, next_id this);
  mret (perform (Emit (INITIALIZED this) None)
          (set_next_id n (set_items (Some its)
             (set_el (place built el1) this)))).

Definition bindDOMEvents (this : toolbar) : toolbar :=
  delegate "click" "li" (delegate "click" ".dropdown-toggle" this).

Definition bindCustomEvents (this : toolbar) : toolbar :=
  subscribe (ITEM_LOADING this) OnLoading
    (subscribe (ITEM_ENABLE this) OnEnable
       (subscribe (ITEM_DISABLE this) OnDisable this)).

(** [initialize]; with a url the data arrive later, see [settle]. *)
Definition initialize (this : toolbar) : completion toolbar :=
  this1 ←
    (if truthy (url (options this))
     then mret (perform (Load (js_show (url (options this)))) this)
     else match data (options this) with
          | Some d => render d this
          | None =>
              mret (perform (Log "no data provided for tabs!" None) this)
          end);
  mret (bindCustomEvents (bindDOMEvents this1)).

(** How the request started by [initialize] ends, and the callback of
    [then] or of [fail] that runs. *)
Inductive outcome :=
| Resolved (d : list Item.t)
| Rejected (reason : string).

Definition settle (o : outcome) (this : toolbar) : completion toolbar :=
  match o with
  | Resolved d => render d this
  | Rejected reason =>
      mret (perform (Log "data could not be loaded:" (Some reason)) this)
  end.

End Render.

(** An event published through [sandbox.emit] reaches every subscription made
    under its name, in the order they were made. *)
Definition run_handler (h : handler) (id : string)
    (highlight : option bool) (this : toolbar) : completion toolbar :=
  match h with
  | OnDisable => toggleEnabled false id highlight this
  | OnEnable => toggleEnabled true id highlight this
  | OnLoading => itemLoading id this
  end.

Fixpoint deliver (subs : list (string * handler)) (ev id : string)
    (highlight : option bool) (this : toolbar) : completion toolbar :=
  match subs with
  | [] => mret this
  | (name, h) :: subs' =>
      this' ← (if bool_decide (name = ev)
               then run_handler h id highlight this else mret this);
      deliver subs' ev id highlight this'
  end.

Definition publish (ev id : string) (highlight : option bool)
    (this : toolbar) : completion toolbar :=
  deliver (subscriptions this) ev id highlight this.

End EditToolbar.

(** ** Scenarios and invariants used in the statements *)
Section AutoCompleteScenarios.
Import AutoComplete.

(** The field snapped to a suggestion. *)
Definition snapped (m : suggestion) (this : autocomplete) : autocomplete :=
  setValueFieldId (id m) (setValueFieldValue (name m) this).


(** A widget on which a suggestion was picked before the next key goes
    down. *)
Definition picked : autocomplete :=
  on_selected {| id := "7"; name := "anna" |}
    (on_template {| id := "7"; name := "anna" |}
       (on_keydown (initialize defaults))).

(** Once a key has gone down the flag is only set together with a match,
    and no blur raises any more. *)
Definition guarded (this : autocomplete) : Prop :=
  matched this = true → matches this ≠ [].

(** A second widget, named by its page. *)
Definition picked_by_name : autocomplete :=
  initialize {| instanceName := "city"; noNewValues := false;
                successClass := "husky-auto-complete-success";
                failClass := "husky-auto-complete-error";
                valueName := None; value := None |}.

End AutoCompleteScenarios.


Section ToolbarScenarios.
Import EditToolbar.

(** Every argument [createEventName] is called with in the source. *)
Definition postFixes : list string :=
  ["initialized"; "item.enable"; "item.disable"; "item.loading";
   "item.select"].

(** [ends_with s suffix]: [s] ends in [suffix]. *)
Fixpoint ends_with (s suffix : string) : bool :=
  bool_decide (s = suffix)
  || match s with
     | String _ s' => ends_with s' suffix
     | EmptyString => false
     end.

(** A toolbar that has not been initialized, for a given instance name. *)
Definition blank (name : string) : toolbar := {|
  options := {| url := None; data := Some []; instanceName := name |};
  items := None;
  el := Dom.Elem "div" [] None true [];
  next_id := 0;
  subscriptions := [];
  dom_events := [];
  trace := [];
|}.

(** The part of an event name that depends on the instance. *)
Definition infix (this : toolbar) : string :=
  if truthy (Some (instanceName (options this)))
  then instanceName (options this) +:+ "." else "".

(** The widget has made its three subscriptions, and no others. *)
Definition listening (this : toolbar) : Prop :=
  subscriptions this
  = [(ITEM_DISABLE this, OnDisable); (ITEM_ENABLE this, OnEnable);
     (ITEM_LOADING this, OnLoading)].

(** [triggerSelectEvent] finds the parent an item names. *)
Definition parent_known (this : toolbar) (it : Item.t) : Prop :=
  truthy (Item.parentId it) = true →
  ∃ p, get_item this (js_show (Item.parentId it)) = Normal p.

(** The one effect of selecting an item. *)
Definition selection (this : toolbar) (it : Item.t) : effect :=
  match Item.callback it with
  | Some cb => Call cb
  | None => Emit (createEventName this "item.select") (Some it)
  end.






(** The generator of underscore.js, which [sandbox.util] hands through: a
    counter, first id 1, shown in decimal. *)
Definition counterId (n : nat) : string := pretty (S n).

Definition plain (id title icon : option string) : Item.t :=
  Item.Build id title icon None false None None None None None None false
             None false.

(** A toolbar with a button, a dropdown of type select (an entry whose id
    is taken by the button, a divider, and an entry with an empty title and
    a callback), and a disabled button whose id collides with a generated
    one. *)
Definition sample : list Item.t :=
  [ plain (Some "save") (Some "Save") (Some "floppy");
    Item.Build None (Some "More") (Some "gear") None false None None None
      (Some "select") None
      (Some [ plain (Some "save") (Some "Draft") (Some "pen");
              Item.Build None None None None false None None None None
                (Some 7) None true None false;
              Item.Build None (Some "") (Some "bin") None false None None None
                None (Some 7) None false None false ])
      false None false;
    Item.Build (Some "1") (Some "Undo") None None true None None None None
      None None false None false ].

Definition configured (name : string) (u : option string) : toolbar := {|
  options := {| url := u; data := Some sample; instanceName := name |};
  items := None;
  el := Dom.Elem "div" [] None true [];
  next_id := 0;
  subscriptions := [];
  dom_events := [];
  trace := [];
|}.

(** The sample toolbar after [initialize]. *)
Definition ready : toolbar :=
  match initialize counterId (configured "tab1" None) with
  | Normal this => this
  | _ => configured "tab1" None
  end.

(** The class attribute of the item's element after [toggleEnabled]. *)
Definition toggled_classes (enabled : bool) (highlight : option bool)
    (cs : list string) : list string :=
  (if enabled then removeClass "disabled" else addClass "disabled")
    (if bool_decide (highlight ≠ Some false)
     then addClass "highlight-animation" cs else cs).

(** The list element [renderItem] builds for an item: the link with the icon
    span and the title span, followed by the dropdown menu and the loaders.
    The parameters are what the widget changes later on. *)
Definition main_list_item (classes : list string) (id : option string)
    (link_classes : list string) (link_shown : bool)
    (icon_classes : list string) (title : list Dom.node)
    (more : list Dom.node) : Dom.node :=
  Dom.Elem "li" classes id true
    (Dom.Elem "a" link_classes None link_shown
       [Dom.Elem "span" icon_classes None true [];
        Dom.Elem "span" ["title"] None true title]
     :: more).

(** The sample's dropdown as [ready] holds it: the stored parent item, the
    entry "Draft" as stored, and what follows the link in the parent's list
    element. *)
Definition more_item : Item.t :=
  match get_item ready "1" with
  | Normal it => it
  | _ => plain None None None
  end.

Definition draft_item : Item.t :=
  match get_item ready "2" with
  | Normal it => it
  | _ => plain None None None
  end.

Definition more_menu : list Dom.node :=
  match Dom.node_at [0; 1; 1; 1] (el ready) with
  | Some (Dom.Elem _ _ _ _ (_ :: rest)) => rest
  | _ => []
  end.

(** How many of the outermost elements tagged [X] a list of nodes holds, and
    how many entries [this.items] has for [X]. *)
Definition tagged (X : string) (l : list Dom.node) : nat :=
  length (concat ((λ k, if Dom.has_data_id X k then [k]
                        else Dom.outer (Dom.has_data_id X) k) <$> l)).

Definition count_key (X : string) (its : gmap string Item.t) : nat :=
  if bool_decide (is_Some (its !! X)) then 1 else 0.

(** Every stored item that names a parent names a stored one. *)
Definition parents_known (its : gmap string Item.t) : Prop :=
  ∀ key it, its !! key = Some it → truthy (Item.parentId it) = true →
    is_Some (its !! js_show (Item.parentId it)).

(** The state of [createDropdownMenu]'s loop, for the element and the
    parents: nothing stored is lost, parents stay known, and each new entry
    has one list element. *)
Definition menu_elements (its0 : gmap string Item.t) (st : menu_state)
    : Prop :=
  (∀ key, is_Some (its0 !! key) → is_Some (st.1.2 !! key))
  ∧ parents_known st.1.2
  ∧ ∀ X, tagged X st.1.1.1 + count_key X its0 = count_key X st.1.2.

(** The state of [render]'s loop, likewise. *)
Definition render_elements (st : render_state) : Prop :=
  parents_known st.1.2
  ∧ ∀ X, tagged X (st.1.1).*2 = count_key X st.1.2.

End ToolbarScenarios.

(** ** Events and scenarios of the further properties *)
Section AutoCompleteEvents.
Import AutoComplete.

(** The events that neither reset nor extend the list of matches. *)
Definition quiet (e : event) : bool :=
  match e with
  | Keydown | Template _ => false
  | _ => true
  end.

(** The events that leave the list of matches or extend it. *)
Definition keeps_matches (e : event) : bool :=
  match e with
  | Keydown => false
  | _ => true
  end.


(** A widget that takes known values only, after a key went down. *)
Definition strict_typing : autocomplete :=
  on_keydown
    (initialize {| instanceName := "who"; noNewValues := true;
                   successClass := "ok"; failClass := "bad";
                   valueName := None; value := None |}).

End AutoCompleteEvents.

(** ** The dropdowns of the edit-toolbar

    Modelled from the spec: [toggleItem] and [hideDropdowns] are under src/,
    the calls [parent], [data], [hasClass], [find] and [one] of
    [this.sandbox.dom] they make are not; they are taken, like the calls the
    adapter under src/ defines, as the jQuery calls of the same name.  A
    click reaches [toggleItem] with the path of the link it was delegated
    for; the handler that [one] leaves on the body is counted in
    [body_once], and a click on the body outside the toolbar runs and drops
    every such handler. *)
Module Dropdowns.
Import Dom EditToolbar.

(** The widget and the handlers waiting on the body for one click. *)
Record page := { widget : toolbar; body_once : nat }.

Definition hideDropdowns (this : toolbar) : toolbar :=
  set_el (modify nothing (has_class "is-expanded")
            (map_classes (removeClass "is-expanded")) true (el this))
         this.

(** [$list]: the parent of the link, and what is read from it. *)
Definition list_of (target : path) : path := removelast target.

Definition list_id (target : path) (this : toolbar) : string :=
  js_show (node_at (list_of target) (el this) ≫= data_id_of).

Definition expanded (target : path) (this : toolbar) : bool :=
  from_option (has_class "is-expanded") false
    (node_at (list_of target) (el this)).

Definition toggleItem (target : path) (pg : page) : completion page :=
  let this := widget pg in
  match items this with
  | None => Throw TypeError
  | Some its =>
      let item := its !! list_id target this in
      if from_option (λ it, negb (Item.disabled it)) true item then
        let visible := expanded target this in
        let this1 := hideDropdowns this in
        if visible then
          mret {| widget := this1; body_once := body_once pg |}
        else
          mret {| widget :=
                    set_el (update_at (list_of target)
                              (map_classes (addClass "is-expanded"))
                              (el this1))
                           this1;
                  body_once := S (body_once pg) |}
      else mret pg
  end.

Definition click_body (pg : page) : page :=
  {| widget := Nat.iter (body_once pg) hideDropdowns (widget pg);
     body_once := 0 |}.

End Dropdowns.

Section RenderScenarios.
Import EditToolbar.







End RenderScenarios.

Section ToggleScenarios.
Import Dom.

(** What a selector and a class change can see of an element. *)
Definition attributes (e : node)
  : option string * option string * bool * list string :=
  (tag_of e, data_id_of e, shown_of e, classes_of e).

(** A class change [g] on the elements that a selector, read off the
    attributes, picks. *)
Definition restyle
    (s : option string * option string * bool * list string → bool)
    (g : list string → list string)
    (p : option string * option string * bool * list string)
  : option string * option string * bool * list string :=
  if s p then (p.1, g p.2) else p.

End ToggleScenarios.


(** * Class attributes *)
Lemma add_token_elem cs t x : x ∈ add_token cs t ↔ x ∈ cs ∨ x = t.
Proof.
  unfold add_token. case_bool_decide as Ht.
  - split; [by left|]. intros [?| ->]; done.
  - rewrite elem_of_app, list_elem_of_singleton. done.
Qed.

Lemma foldl_add_token_elem ts cs x :
  x ∈ foldl add_token cs ts ↔ x ∈ cs ∨ x ∈ ts.
Proof.
  revert cs. induction ts as [|t ts IH]; intros cs; simpl.
  - rewrite elem_of_nil. tauto.
  - rewrite IH, add_token_elem, elem_of_cons. tauto.
Qed.

Lemma addClass_elem classes cs x :
  x ∈ addClass classes cs ↔ x ∈ cs ∨ x ∈ String.words classes.
Proof. apply foldl_add_token_elem. Qed.

Lemma removeClass_elem classes cs x :
  x ∈ removeClass classes cs ↔ x ∈ cs ∧ x ∉ String.words classes.
Proof. unfold removeClass. rewrite list_elem_of_filter. tauto. Qed.

(** * The auto-complete widget: blur and keystroke *)
Section AutoCompleteProperties.
Import AutoComplete.

Lemma snap_head this m ms :
  matches this = m :: ms → snap this = Normal (snapped m this).
Proof.
  intros Hm. unfold snap, closest, getClosestMatch. rewrite Hm. simpl.
  rewrite Hm. reflexivity.
Qed.




(** C6, as stated, fails: a keystroke leaves the selected id in place. *)
Lemma keydown_keeps_selected_id :
  field_data_id picked = "7"
  ∧ handle Keydown picked = Normal (on_keydown picked)
  ∧ field_data_id (on_keydown picked) = "7".
Proof. repeat split. Qed.

Lemma removeClass_absent classes cs c :
  c ∈ String.words classes → c ∉ removeClass classes cs.
Proof. intros Hc Hin. apply removeClass_elem in Hin. tauto. Qed.

(** C6, amended: a keystroke resets the matched flag, the match list and
    the visual state; the text and the data-id of the field stay. *)
Theorem keydown_resets (this : autocomplete) :
  ∃ this', handle Keydown this = Normal this'
    ∧ matched this' = false
    ∧ matches this' = []
    ∧ (∀ c, c ∈ String.words (successClass (options this)) →
         c ∉ el_classes this')
    ∧ (∀ c, c ∈ String.words (failClass (options this)) →
         c ∉ el_classes this')
    ∧ field_value this' = field_value this
    ∧ field_data_id this' = field_data_id this
    ∧ options this' = options this.
Proof.
  exists (on_keydown this). repeat split.
  - intros c Hc. simpl. intros Hin.
    apply removeClass_elem in Hin as [Hin _].
    by apply removeClass_absent in Hin.
  - intros c Hc. simpl. by apply removeClass_absent.
Qed.

(** C10: a widget that has just been initialized is blurred.  The source
    reads [name] from [null]. *)
Theorem handleBlur_initial_throws :
  matched (initialize defaults) = true
  ∧ getClosestMatch (initialize defaults) = None
  ∧ handleBlur (initialize defaults) = Throw TypeError
  ∧ run [Blur] (initialize defaults) = Throw TypeError.
Proof. repeat split. Qed.

Lemma handleBlur_guarded this :
  guarded this → ∃ this', handleBlur this = Normal this' ∧ guarded this'.
Proof.
  unfold guarded. intros Hg.
  unfold handleBlur, isMatchedExactly, isMatched, closest, getClosestMatch.
  destruct (noNewValues (options this)), (matched this) eqn:Hm,
    (matches this) as [|m ms] eqn:Hms; simpl;
    try (by specialize (Hg eq_refl)).
  - rewrite (snap_head this m ms Hms). simpl. eexists; split; [done|].
    simpl. by rewrite Hms.
  - eexists; split; [done|]. simpl. congruence.
  - eexists; split; [done|]. simpl. congruence.
  - case_bool_decide; simpl.
    + rewrite (snap_head this m ms Hms). eexists; split; [done|].
      simpl. by rewrite Hms.
    + eexists; split; [done|]. by rewrite Hms.
  - eexists; split; [done|]. congruence.
  - eexists; split; [done|]. congruence.
Qed.

Lemma handle_guarded e this :
  guarded this → ∃ this', handle e this = Normal this' ∧ guarded this'.
Proof.
  intros Hg. destruct e as [d| | |c| | | |v]; simpl;
    try (eexists; split; [done|]; exact Hg).
  - eexists; split; [done|]. unfold guarded. simpl. discriminate.
  - by apply handleBlur_guarded.
  - eexists; split; [done|]. unfold guarded. simpl.
    intros _. by destruct (matches this).
Qed.

Lemma run_guarded es this :
  guarded this → ∃ this', run es this = Normal this' ∧ guarded this'.
Proof.
  revert this. induction es as [|e es IH]; intros this Hg; simpl.
  - by exists this.
  - destruct (handle_guarded e this Hg) as (this1 & -> & Hg1). simpl.
    by apply IH.
Qed.

Lemma run_after_keydown es o :
  ∃ this', run (Keydown :: es) (initialize o) = Normal this'.
Proof.
  simpl. destruct (run_guarded es (on_keydown (initialize o))) as (t & Ht & _).
  - unfold guarded. simpl. discriminate.
  - by exists t.
Qed.

End AutoCompleteProperties.

(** * Event names *)
Section EventNames.
Import EditToolbar.

Lemma append_cons c s t : String c s +:+ t = String c (s +:+ t).
Proof. reflexivity. Qed.

Lemma append_nil_l t : "" +:+ t = t.
Proof. reflexivity. Qed.

Lemma append_assoc (a b c : string) : (a +:+ b) +:+ c = a +:+ (b +:+ c).
Proof.
  induction a as [|ch a IH]; [done|]. rewrite !append_cons. by rewrite IH.
Qed.

Lemma length_append (a b : string) :
  String.length (a +:+ b) = String.length a + String.length b.
Proof.
  induction a as [|ch a IH]; [done|]. rewrite append_cons. simpl.
  by rewrite IH.
Qed.

Lemma append_cancel_r (a b p : string) : a +:+ p = b +:+ p → a = b.
Proof.
  revert b. induction a as [|ch a IH]; intros [|ch' b] H.
  - done.
  - apply (f_equal String.length) in H.
    rewrite append_nil_l, append_cons in H. simpl in H.
    rewrite length_append in H. lia.
  - apply (f_equal String.length) in H.
    rewrite append_nil_l, append_cons in H. simpl in H.
    rewrite length_append in H. lia.
  - rewrite !append_cons in H. injection H as -> H. f_equal. by apply IH.
Qed.

Lemma ends_with_refl s : ends_with s s = true.
Proof.
  destruct s as [|c s]; [reflexivity|].
  change (ends_with (String c s) (String c s))
    with (bool_decide (String c s = String c s) || ends_with s (String c s)).
  by rewrite bool_decide_eq_true_2.
Qed.

Lemma ends_with_append c y : ends_with (c +:+ y) y = true.
Proof.
  induction c as [|ch c IH].
  - apply ends_with_refl.
  - rewrite append_cons. simpl. rewrite IH. apply orb_true_r.
Qed.

Lemma append_eq_comparable (a b x y : string) :
  a +:+ x = b +:+ y → ends_with x y = true ∨ ends_with y x = true.
Proof.
  revert b. induction a as [|ch a IH]; intros b H.
  - rewrite append_nil_l in H. subst x. left. apply ends_with_append.
  - destruct b as [|ch' b].
    + rewrite append_nil_l in H. subst y. right. apply ends_with_append.
    + rewrite !append_cons in H. injection H as _ H. by apply (IH b).
Qed.

Lemma createEventName_infix this p :
  createEventName this p = "husky.edit-toolbar." +:+ (infix this +:+ p).
Proof. reflexivity. Qed.

Lemma infix_inj a b :
  infix a = infix b → instanceName (options a) = instanceName (options b).
Proof.
  unfold infix, truthy.
  destruct (instanceName (options a)) as [|ca na] eqn:Ha,
           (instanceName (options b)) as [|cb nb] eqn:Hb; simpl;
    rewrite ?append_cons; intros H; try done.
  injection H as -> H. f_equal. by apply append_cancel_r in H.
Qed.

Lemma postFix_determined a b p1 p2 :
  p1 ∈ postFixes → p2 ∈ postFixes →
  createEventName a p1 = createEventName b p2 → p1 = p2.
Proof.
  intros H1 H2 H. rewrite !createEventName_infix in H.
  apply (inj (String.app _)) in H.
  apply append_eq_comparable in H.
  unfold postFixes in H1, H2.
  repeat (apply elem_of_cons in H1 as [-> | H1]);
    try (by apply elem_of_nil in H1);
    repeat (apply elem_of_cons in H2 as [-> | H2]);
    try (by apply elem_of_nil in H2);
    try reflexivity;
    destruct H as [H | H]; vm_compute in H; discriminate.
Qed.

(** C5, as stated, fails: two auto-complete widgets with different instance
    names emit their selection under one event name. *)
Lemma getEvent_shared_between_instances :
  AutoComplete.instanceName
    (AutoComplete.options
       (AutoComplete.initialize AutoComplete.defaults)) = "undefined"
  ∧ AutoComplete.instanceName (AutoComplete.options picked_by_name) = "city"
  ∧ AutoComplete.getEvent (AutoComplete.initialize AutoComplete.defaults)
      "select"
    = AutoComplete.getEvent picked_by_name "select".
Proof. repeat split. Qed.

(** C5, amended: edit-toolbar event names carry a non-empty instance name
    between prefix and suffix, toolbars with different instance names share
    no event name, and auto-complete event names are the same for every
    instance. *)
Theorem event_names_per_instance :
  (∀ this postFix,
     instanceName (options this) ≠ "" →
     createEventName this postFix
     = "husky.edit-toolbar." +:+ instanceName (options this) +:+ "."
         +:+ postFix)
  ∧ (∀ this postFix,
       instanceName (options this) = "" →
       createEventName this postFix = "husky.edit-toolbar." +:+ postFix)
  ∧ (∀ a b p1 p2,
       instanceName (options a) ≠ instanceName (options b) →
       p1 ∈ postFixes → p2 ∈ postFixes →
       createEventName a p1 ≠ createEventName b p2)
  ∧ (∀ (a b : AutoComplete.autocomplete) append,
       AutoComplete.getEvent a append = "husky.auto-complete." +:+ append
       ∧ AutoComplete.getEvent a append = AutoComplete.getEvent b append).
Proof.
  split; [|split; [|split]].
  - intros this p Hne. unfold createEventName, truthy.
    rewrite bool_decide_eq_false_2 by done. simpl.
    by rewrite append_assoc.
  - intros this p Hne. unfold createEventName, truthy. by rewrite Hne.
  - intros a b p1 p2 Hne H1 H2 H.
    assert (p1 = p2) as <- by eauto using postFix_determined.
    rewrite !createEventName_infix in H. apply (inj (String.app _)) in H.
    apply append_cancel_r in H. by apply infix_inj in H.
  - done.
Qed.

(** C5, amended, at toolbars named tab1, tab2 and not at all. *)
Lemma event_names_per_instance_witness :
  createEventName (blank "tab1") "item.enable"
  = "husky.edit-toolbar.tab1.item.enable"
  ∧ createEventName (blank "") "item.enable"
    = "husky.edit-toolbar.item.enable"
  ∧ createEventName (blank "tab1") "item.enable"
    ≠ createEventName (blank "tab2") "item.select".
Proof.
  split; [|split].
  - apply (proj1 event_names_per_instance (blank "tab1") "item.enable").
    discriminate.
  - apply (proj1 (proj2 event_names_per_instance) (blank "")). reflexivity.
  - apply (proj1 (proj2 (proj2 event_names_per_instance))).
    + discriminate.
    + unfold postFixes. set_solver.
    + unfold postFixes. set_solver.
Defined.

End EventNames.

(** * The DOM operations *)
Section DomFacts.
Import Dom.

Lemma node_induction (P : node → Prop) :
  (∀ s, P (Text s)) →
  (∀ t cs d sh ks, Forall P ks → P (Elem t cs d sh ks)) →
  ∀ n, P n.
Proof.
  intros Htext Helem. fix IH 1. intros [t cs d sh ks | s].
  - apply Helem. induction ks as [|k ks IHks]; constructor; [apply IH | done].
  - apply Htext.
Qed.

(** [modify] and [prune] leave the attributes of the node they start from
    alone. *)
Lemma modify_data_id ctx sel f ins n :
  data_id_of (modify ctx sel f ins n) = data_id_of n.
Proof. by destruct n. Qed.

Lemma modify_classes ctx sel f ins n :
  classes_of (modify ctx sel f ins n) = classes_of n.
Proof. by destruct n. Qed.

Lemma modify_tag ctx sel f ins n :
  tag_of (modify ctx sel f ins n) = tag_of n.
Proof. by destruct n. Qed.

Lemma modify_shown ctx sel f ins n :
  shown_of (modify ctx sel f ins n) = shown_of n.
Proof. by destruct n. Qed.

Lemma prune_data_id ctx sel ins n :
  data_id_of (prune ctx sel ins n) = data_id_of n.
Proof. by destruct n. Qed.

Lemma prune_classes ctx sel ins n :
  classes_of (prune ctx sel ins n) = classes_of n.
Proof. by destruct n. Qed.

Lemma has_data_id_modify i ctx sel f ins n :
  has_data_id i (modify ctx sel f ins n) = has_data_id i n.
Proof. unfold has_data_id. by rewrite modify_data_id. Qed.

Lemma has_data_id_prune i ctx sel ins n :
  has_data_id i (prune ctx sel ins n) = has_data_id i n.
Proof. unfold has_data_id. by rewrite prune_data_id. Qed.

Lemma has_data_id_map_classes i g n :
  has_data_id i (map_classes g n) = has_data_id i n.
Proof. by destruct n. Qed.

Lemma modify_Elem ctx sel f ins t cs d sh ks :
  modify ctx sel f ins (Elem t cs d sh ks)
  = Elem t cs d sh
      ((λ k, let k' := modify ctx sel f (ins || ctx k) k in
             if ins && sel k then f k' else k') <$> ks).
Proof. reflexivity. Qed.

Lemma prune_Elem ctx sel ins t cs d sh ks :
  prune ctx sel ins (Elem t cs d sh ks)
  = Elem t cs d sh
      (omap (λ k, if ins && sel k then None
                  else Some (prune ctx sel (ins || ctx k) k)) ks).
Proof. reflexivity. Qed.

Lemma outer_Elem sel t cs d sh ks :
  outer sel (Elem t cs d sh ks)
  = concat ((λ k, if sel k then [k] else outer sel k) <$> ks).
Proof. reflexivity. Qed.

Lemma below_Elem ctx ins t cs d sh ks :
  below ctx ins (Elem t cs d sh ks)
  = concat ((λ k, (if ins then [k] else []) ++ below ctx (ins || ctx k) k)
              <$> ks).
Proof. reflexivity. Qed.

Lemma omap_cons_Some {A B} (f : A → option B) k ks y :
  f k = Some y → omap f (k :: ks) = y :: omap f ks.
Proof. intros H. simpl. by rewrite H. Qed.

Lemma descendants_Elem t cs d sh ks :
  descendants (Elem t cs d sh ks)
  = concat ((λ k, k :: descendants k) <$> ks).
Proof. reflexivity. Qed.

(** What [outer] and [below] list, in terms of descendants. *)
Lemma below_inside ctx n : below ctx true n = descendants n.
Proof.
  induction n as [s | t cs d sh ks IH] using node_induction; [done|].
  rewrite below_Elem, descendants_Elem. f_equal.
  induction IH as [|k ks Hk _ IHks]; [done|].
  rewrite !fmap_cons, IHks. f_equal. cbn beta. by rewrite orb_true_l, Hk.
Qed.

Lemma outer_descendants sel n e :
  e ∈ outer sel n → e ∈ descendants n ∧ sel e = true.
Proof.
  induction n as [s | t cs d sh ks IH] using node_induction.
  - intros H. by apply elem_of_nil in H.
  - rewrite outer_Elem, descendants_Elem.
    induction IH as [|k ks Hk _ IHks].
    + intros H. by apply elem_of_nil in H.
    + rewrite !fmap_cons, !concat_cons. cbn beta.
      intros [H | H]%elem_of_app.
      * destruct (sel k) eqn:Hs.
        -- apply list_elem_of_singleton in H as ->. split; [|done].
           apply elem_of_app. left. apply elem_of_cons. by left.
        -- destruct (Hk H) as [Hd Hsel]. split; [|done].
           apply elem_of_app. left. apply elem_of_cons. by right.
      * destruct (IHks H) as [Hd Hsel]. split; [|done].
        apply elem_of_app. by right.
Qed.

Lemma below_descendants ctx n e :
  e ∈ below ctx false n →
  ∃ c, c ∈ descendants n ∧ ctx c = true ∧ e ∈ descendants c.
Proof.
  induction n as [s | t cs d sh ks IH] using node_induction.
  - intros H. by apply elem_of_nil in H.
  - rewrite below_Elem, descendants_Elem.
    induction IH as [|k ks Hk _ IHks].
    + intros H. by apply elem_of_nil in H.
    + rewrite !fmap_cons, !concat_cons. cbn beta.
      rewrite app_nil_l, orb_false_l.
      intros [H | H]%elem_of_app.
      * destruct (ctx k) eqn:Hc.
        -- rewrite below_inside in H. exists k. split; [|done].
           apply elem_of_app. left. apply elem_of_cons. by left.
        -- destruct (Hk H) as (c & Hd & Hctx & He). exists c.
           split; [|done].
           apply elem_of_app. left. apply elem_of_cons. by right.
      * destruct (IHks H) as (c & Hd & Hctx & He). exists c.
        split; [|done]. apply elem_of_app. by right.
Qed.

(** A call on what lies below the item leaves the item's own element as it
    was. *)
Lemma outer_modify_below i sel f n :
  classes_of <$> outer (has_data_id i) (modify (has_data_id i) sel f false n)
  = classes_of <$> outer (has_data_id i) n.
Proof.
  induction n as [s | t cs d sh ks IH] using node_induction; [done|].
  rewrite modify_Elem, !outer_Elem.
  induction IH as [|k ks Hk _ IHks]; [done|].
  rewrite !fmap_cons, !concat_cons, !fmap_app, IHks. f_equal.
  cbn beta zeta. rewrite andb_false_l, orb_false_l, has_data_id_modify.
  destruct (has_data_id i k); [|done].
  rewrite !fmap_cons. by rewrite modify_classes.
Qed.

Lemma outer_prune_below i sel n :
  classes_of <$> outer (has_data_id i) (prune (has_data_id i) sel false n)
  = classes_of <$> outer (has_data_id i) n.
Proof.
  induction n as [s | t cs d sh ks IH] using node_induction; [done|].
  rewrite prune_Elem, !outer_Elem.
  induction IH as [|k ks Hk _ IHks]; [done|].
  erewrite omap_cons_Some by reflexivity.
  rewrite !fmap_cons, !concat_cons, !fmap_app, IHks. f_equal.
  rewrite orb_false_l, has_data_id_prune.
  destruct (has_data_id i k); [|done].
  rewrite !fmap_cons. by rewrite prune_classes.
Qed.

(** A class change on [$item] changes the class attribute of the item's
    element accordingly. *)
Lemma outer_modify_on i g n :
  classes_of
    <$> outer (has_data_id i)
          (modify nothing (has_data_id i) (map_classes g) true n)
  = g <$> (classes_of <$> outer (has_data_id i) n).
Proof.
  induction n as [s | t cs d sh ks IH] using node_induction; [done|].
  rewrite modify_Elem, !outer_Elem.
  induction IH as [|k ks Hk _ IHks]; [done|].
  rewrite !fmap_cons, !concat_cons, !fmap_app, IHks. f_equal.
  cbn beta zeta. rewrite andb_true_l, orb_true_l.
  destruct (has_data_id i k) eqn:Hi.
  - rewrite has_data_id_map_classes, has_data_id_modify, Hi.
    rewrite !fmap_cons. f_equal. by destruct k.
  - by rewrite has_data_id_modify, Hi.
Qed.

Lemma below_children ctx ins a b :
  children_of a = children_of b → below ctx ins a = below ctx ins b.
Proof. destruct a, b; simpl; intros H; by subst. Qed.

(** After a call on the matches of [sel] below [ctx], every such match shows
    what the call establishes. *)
Lemma below_modify_selected i sel f (R : node → Prop) n :
  (∀ e, sel e = true → R (f e)) →
  (∀ e, has_data_id i (f e) = has_data_id i e) →
  (∀ e, children_of (f e) = children_of e) →
  (∀ c s g b k, sel (modify c s g b k) = sel k) →
  ∀ ins,
    Forall (λ e, sel e = true → R e)
      (below (has_data_id i) ins (modify (has_data_id i) sel f ins n)).
Proof.
  intros HR Hid Hkids Hsel.
  induction n as [s | t cs d sh ks IH] using node_induction; intros ins;
    [by constructor|].
  rewrite modify_Elem, below_Elem.
  induction IH as [|k ks Hk _ IHks]; [by constructor|].
  rewrite !fmap_cons, concat_cons. apply Forall_app. split; [|exact IHks].
  cbn beta zeta. apply Forall_app. split.
  - destruct ins; [|by constructor]. rewrite andb_true_l.
    apply Forall_singleton. destruct (sel k) eqn:Hs.
    + intros _. apply HR. by rewrite Hsel.
    + by rewrite Hsel, Hs.
  - destruct (ins && sel k).
    + rewrite Hid, has_data_id_modify.
      rewrite (below_children _ _ (f _) _ (Hkids _)). apply Hk.
    + rewrite has_data_id_modify. apply Hk.
Qed.

(** What a link shows of itself: its tag and whether it is shown. *)
Lemma below_modify_classes i ctx sel g n :
  ∀ ins ins',
    (λ e, (tag_of e, shown_of e))
      <$> below (has_data_id i) ins (modify ctx sel (map_classes g) ins' n)
    = (λ e, (tag_of e, shown_of e)) <$> below (has_data_id i) ins n.
Proof.
  induction n as [s | t cs d sh ks IH] using node_induction; intros ins ins';
    [done|].
  rewrite modify_Elem, !below_Elem.
  induction IH as [|k ks Hk _ IHks]; [done|].
  rewrite !fmap_cons, !concat_cons, !fmap_app, IHks. f_equal.
  cbn beta zeta. f_equal.
  - destruct ins; [|done]. rewrite !fmap_cons. f_equal.
    destruct (ins' && sel k); by destruct k.
  - destruct (ins' && sel k).
    + rewrite has_data_id_map_classes, has_data_id_modify.
      rewrite (below_children _ _ (map_classes g _)
                 (modify ctx sel (map_classes g) (ins' || ctx k) k)).
      * apply Hk.
      * by destruct k.
    + rewrite has_data_id_modify. apply Hk.
Qed.

Lemma update_at_app p q f n :
  update_at (p ++ q) f n = update_at p (update_at q f) n.
Proof.
  revert n. induction p as [|i p IH]; intros n; [done|].
  destruct n as [t cs d sh ks|]; [|done]. simpl. f_equal.
  apply list_alter_ext; [|done]. intros k _. apply IH.
Qed.

Lemma update_at_twice p f g n :
  update_at p g (update_at p f n) = update_at p (g ∘ f) n.
Proof.
  revert n. induction p as [|i p IH]; intros n; [done|].
  destruct n as [t cs d sh ks|]; [|done]. simpl. f_equal.
  rewrite list_alter_alter_eq.
  apply list_alter_ext; [|done]. intros k _. apply IH.
Qed.

Lemma update_at_ext p f g n e :
  node_at p n = Some e → f e = g e → update_at p f n = update_at p g n.
Proof.
  revert n. induction p as [|i p IH]; intros n Hn Hfg.
  - simpl in *. by injection Hn as ->.
  - destruct n as [t cs d sh ks|]; [|done]. simpl in *. f_equal.
    destruct (ks !! i) as [k|] eqn:Hk; [|done]. simpl in Hn.
    apply list_alter_ext; [|done]. intros k' Hk'.
    assert (k' = k) as -> by congruence. by apply IH.
Qed.

Lemma node_at_update_at p f n :
  node_at p (update_at p f n) = f <$> node_at p n.
Proof.
  revert n. induction p as [|i p IH]; intros n; [done|].
  destruct n as [t cs d sh ks|]; simpl.
  - rewrite list_lookup_alter_eq. destruct (ks !! i); simpl; [apply IH|done].
  - by destruct i.
Qed.

End DomFacts.

(** * The edit-toolbar: events, selection, loading *)
Section ToolbarEvents.
Import EditToolbar Dom.

Lemma createEventName_inj this p1 p2 :
  createEventName this p1 = createEventName this p2 → p1 = p2.
Proof.
  unfold createEventName. intros H.
  apply (inj (String.app _)) in H. by apply (inj (String.app _)) in H.
Qed.

Lemma deliver_cons name h subs ev id hl this :
  deliver ((name, h) :: subs) ev id hl this
  = (if bool_decide (name = ev) then run_handler h id hl this
     else Normal this) ≫= deliver subs ev id hl.
Proof. reflexivity. Qed.

Lemma postFix_ne this p1 p2 :
  p1 ≠ p2 → bool_decide (createEventName this p1 = createEventName this p2)
            = false.
Proof.
  intros Hne. apply bool_decide_eq_false_2.
  intros H. by apply createEventName_inj in H.
Qed.

Lemma bind_Normal_l {A B} (a : A) (f : A → completion B) :
  Normal a ≫= f = f a.
Proof. reflexivity. Qed.

Lemma publish_disable this id hl :
  listening this →
  publish (ITEM_DISABLE this) id hl this = toggleEnabled false id hl this.
Proof.
  unfold publish, listening, ITEM_DISABLE, ITEM_ENABLE, ITEM_LOADING.
  intros ->. rewrite deliver_cons, bool_decide_eq_true_2 by reflexivity.
  unfold run_handler.
  destruct (toggleEnabled false id hl this) as [this'| |]; try done.
  rewrite bind_Normal_l.
  rewrite deliver_cons, postFix_ne, bind_Normal_l by discriminate.
  by rewrite deliver_cons, postFix_ne by discriminate.
Qed.

Lemma publish_enable this id hl :
  listening this →
  publish (ITEM_ENABLE this) id hl this = toggleEnabled true id hl this.
Proof.
  unfold publish, listening, ITEM_DISABLE, ITEM_ENABLE, ITEM_LOADING.
  intros ->. rewrite deliver_cons, postFix_ne, bind_Normal_l by discriminate.
  rewrite deliver_cons, bool_decide_eq_true_2 by reflexivity.
  unfold run_handler.
  destruct (toggleEnabled true id hl this) as [this'| |]; try done.
  rewrite bind_Normal_l.
  by rewrite deliver_cons, postFix_ne by discriminate.
Qed.

Lemma publish_loading this id hl :
  listening this →
  publish (ITEM_LOADING this) id hl this = itemLoading id this.
Proof.
  unfold publish, listening, ITEM_DISABLE, ITEM_ENABLE, ITEM_LOADING.
  intros ->. rewrite deliver_cons, postFix_ne, bind_Normal_l by discriminate.
  rewrite deliver_cons, postFix_ne, bind_Normal_l by discriminate.
  rewrite deliver_cons, bool_decide_eq_true_2 by reflexivity.
  unfold run_handler. by destruct (itemLoading id this).
Qed.

Lemma get_item_Normal this key it :
  get_item this key = Normal it ↔
  ∃ m, items this = Some m ∧ m !! key = Some it.
Proof.
  unfold get_item. split.
  - destruct (items this) as [m|]; [|done].
    destruct (m !! key) as [it'|] eqn:Hk; [|done].
    intros [= ->]. by exists m.
  - intros (m & -> & ->). done.
Qed.

Lemma get_item_put this key it it' :
  get_item this key = Normal it →
  get_item (put_item key it' this) key = Normal it'.
Proof.
  intros (m & Hm & _)%get_item_Normal. apply get_item_Normal.
  exists (<[key := it']> m). unfold put_item. simpl. rewrite Hm. simpl.
  split; [done|]. apply lookup_insert_eq.
Qed.

Lemma itemLoading_loading this id it :
  get_item this id = Normal it → Item.loading it = true →
  itemLoading id this = Normal this.
Proof. unfold itemLoading. intros -> H. simpl. by rewrite H. Qed.

Lemma itemLoading_twice this id :
  itemLoading id this ≫= itemLoading id = itemLoading id this.
Proof.
  destruct (itemLoading id this) as [this'| |] eqn:Hrun; try done.
  rewrite bind_Normal_l. revert Hrun. unfold itemLoading at 1.
  destruct (get_item this id) as [it| |] eqn:Hit; try done.
  rewrite bind_Normal_l.
  destruct (Item.loading it) eqn:Hl; intros [= <-].
  - by apply itemLoading_loading with it.
  - eapply itemLoading_loading;
      [exact (get_item_put this id it _ Hit) | reflexivity].
Qed.

(** C9: a second item.loading event for an item that is loading changes
    nothing, so two such events in a row leave the state of one. *)
Theorem itemLoading_idempotent (this : toolbar) (id : string)
    (hl : option bool) :
  listening this →
  (∀ it, get_item this id = Normal it → Item.loading it = true →
     publish (ITEM_LOADING this) id hl this = Normal this)
  ∧ (publish (ITEM_LOADING this) id hl this
       ≫= (λ this', publish (ITEM_LOADING this') id hl this'))
    = publish (ITEM_LOADING this) id hl this.
Proof.
  intros Hl. split.
  - intros it Hit Hload. rewrite publish_loading by done.
    by apply itemLoading_loading with it.
  - rewrite publish_loading by done.
    rewrite <- (itemLoading_twice this id) at 2.
    destruct (itemLoading id this) as [this'| |] eqn:Hrun; simpl; try done.
    apply publish_loading.
    revert Hrun. unfold itemLoading.
    destruct (get_item this id) as [it| |]; simpl; try done.
    destruct (Item.loading it); intros [= <-]; exact Hl.
Qed.

(** C8: with a url nothing is rendered by [initialize], and a failed fetch
    is only logged. *)
Theorem initialize_fetch_failure (uniqueId : nat → string) (this : toolbar)
    (u reason : string) :
  url (options this) = Some u → u ≠ "" →
  ∃ this1,
    initialize uniqueId this = Normal this1
    ∧ this1 = bindCustomEvents (bindDOMEvents (perform (Load u) this))
    ∧ items this1 = items this ∧ el this1 = el this
    ∧ trace this1 = trace this ++ [Load u]
    ∧ ∃ this2,
        settle uniqueId (Rejected reason) this1 = Normal this2
        ∧ trace this2
          = trace this1 ++ [Log "data could not be loaded:" (Some reason)]
        ∧ items this2 = items this1 ∧ el this2 = el this1
        ∧ options this2 = options this1 ∧ next_id this2 = next_id this1
        ∧ subscriptions this2 = subscriptions this1
        ∧ dom_events this2 = dom_events this1.
Proof.
  intros Hu Hne. eexists. split.
  - unfold initialize, truthy. rewrite Hu.
    rewrite bool_decide_eq_false_2 by done. simpl. reflexivity.
  - repeat split. eexists. repeat split.
Qed.

Lemma selectItem_idle this target it :
  get_item this (js_show (node_at target (el this) ≫= data_id_of))
  = Normal it →
  Item.disabled it = true ∨ Item.loading it = true
  ∨ Item.has_subitems it = true →
  selectItem target this = Normal this.
Proof.
  intros Hit H. unfold selectItem. rewrite Hit. simpl.
  destruct (Item.has_subitems it), (Item.loading it), (Item.disabled it);
    simpl; try done.
  destruct H as [H | [H | H]]; discriminate.
Qed.

Lemma triggerSelectEvent_trace this it parent :
  parent_known this it →
  ∃ this', triggerSelectEvent it parent this = Normal this'
    ∧ trace this' = trace this ++ [selection this it]
    ∧ items this' = items this.
Proof.
  unfold parent_known. intros Hp. unfold triggerSelectEvent, selection.
  destruct (truthy (Item.parentId it)) eqn:Ht.
  - destruct (Hp eq_refl) as [p ->]. simpl.
    case_bool_decide; simpl.
    + destruct parent as [pp|]; simpl;
        destruct (Item.callback it); simpl; eexists; by repeat split.
    + destruct (Item.callback it); simpl; eexists; by repeat split.
  - simpl. destruct (Item.callback it); simpl; eexists; by repeat split.
Qed.

(** C4: selecting an enabled, idle item without subitems calls its callback
    or else emits item.select with the item; selecting any other item does
    nothing. *)
Theorem selectItem_one_action (this : toolbar) (target : path)
    (it : Item.t) :
  get_item this (js_show (node_at target (el this) ≫= data_id_of))
  = Normal it →
  parent_known this it →
  (Item.disabled it = false → Item.loading it = false →
   Item.has_subitems it = false →
   ∃ this', selectItem target this = Normal this'
     ∧ trace this'
       = trace this
           ++ [match Item.callback it with
               | Some cb => Call cb
               | None => Emit (createEventName this "item.select") (Some it)
               end])
  ∧ (Item.disabled it = true ∨ Item.loading it = true
     ∨ Item.has_subitems it = true →
     selectItem target this = Normal this).
Proof.
  intros Hit Hp. split.
  - intros Hd Hl Hs. unfold selectItem. rewrite Hit. simpl.
    rewrite Hd, Hl, Hs. simpl.
    destruct (triggerSelectEvent_trace this it
                (nearest (is_tag "li") target (el this)) Hp)
      as (this' & -> & Htr & _).
    by exists this'.
  - by apply selectItem_idle.
Qed.

End ToolbarEvents.

(** * Rendering: the ids in [this.items] *)
Section RenderIds.
Import EditToolbar Dom.
Variable uniqueId : nat → string.
Hypothesis uniqueId_inj : Inj (=) (=) uniqueId.
Local Arguments generate : simpl never.
Local Arguments foreach : simpl never.

(** The generator passes every stored id at most once, so the loop ends
    within [size its + 1] rounds. *)
Lemma generate_bounded (its : gmap string Item.t) (fuel : nat) :
  ∀ (n : nat) (D : gset string),
    (∀ j, n ≤ j → is_Some (its !! uniqueId j) → uniqueId j ∈ D) →
    size D < fuel →
    ∃ k, generate uniqueId fuel its n = Normal (uniqueId k, S k)
      ∧ n ≤ k ∧ its !! uniqueId k = None
      ∧ ∀ j, n ≤ j < k → is_Some (its !! uniqueId j).
Proof.
  induction fuel as [|fuel IH]; intros n D HD Hsize; [lia|].
  unfold generate; fold generate. case_bool_decide as Hc.
  - destruct (IH (S n) (D ∖ {[uniqueId n]})) as (k & Hk & Hle & Hfree & Hbusy).
    + intros j Hj Hin. apply elem_of_difference. split.
      * apply HD; [lia | done].
      * rewrite elem_of_singleton. intros Heq%uniqueId_inj. lia.
    + assert (uniqueId n ∈ D) as Hn by (apply HD; [lia | done]).
      assert (size (D ∖ {[uniqueId n]}) = size D - 1) as Hsz.
      { rewrite size_difference by set_solver. by rewrite size_singleton. }
      assert (size D ≠ 0) by (apply size_non_empty_iff; set_solver).
      lia.
    + exists k. split; [done|]. split; [lia|]. split; [done|].
      intros j Hj. destruct (decide (j = n)) as [-> | Hne]; [done|].
      apply Hbusy. lia.
  - exists n. split; [done|]. split; [lia|]. split.
    + by apply eq_None_not_Some.
    + intros j Hj. lia.
Qed.

Lemma generate_fresh (its : gmap string Item.t) (n : nat) :
  ∃ k, generate uniqueId (S (size its)) its n = Normal (uniqueId k, S k)
    ∧ n ≤ k ∧ its !! uniqueId k = None
    ∧ ∀ j, n ≤ j < k → is_Some (its !! uniqueId j).
Proof.
  apply (generate_bounded its (S (size its)) n (dom its)).
  - intros j _ Hin. by apply elem_of_dom.
  - rewrite size_dom. lia.
Qed.

Lemma set_disabled_same (i : Item.t) :
  (if negb (Item.disabled i) then Item.set_disabled false i else i) = i.
Proof. by destruct i as [? ? ? ? [] ? ? ? ? ? ? ? ? ?]. Qed.

Lemma set_disabled_same_id (v : option string) (i : Item.t) :
  (if negb (Item.disabled i) then Item.set_disabled false (Item.set_id v i)
   else Item.set_id v i) = Item.set_id v i.
Proof. by destruct i as [? ? ? ? [] ? ? ? ? ? ? ? ? ?]. Qed.

(** What [checkItemId] returns: the item as it came when its id is usable
    and free, and otherwise the item under the first generated id that is
    free. *)
Lemma checkItemId_spec (item : Item.t) (its : gmap string Item.t) (n : nat) :
  ∃ item' n',
    checkItemId uniqueId item its n = Normal (item', n')
    ∧ its !! js_show (Item.id item') = None
    ∧ Item.id item' = Some (js_show (Item.id item'))
    ∧ ((truthy (Item.id item) = true
        ∧ its !! js_show (Item.id item) = None
        ∧ item' = item ∧ n' = n)
       ∨ ((truthy (Item.id item) = false
           ∨ is_Some (its !! js_show (Item.id item)))
          ∧ ∃ k, n ≤ k ∧ item' = Item.set_id (Some (uniqueId k)) item
              ∧ n' = S k
              ∧ ∀ j, n ≤ j < k → is_Some (its !! uniqueId j))).
Proof.
  unfold checkItemId.
  destruct (truthy (Item.id item)) eqn:Ht; simpl.
  - case_bool_decide as Hin; simpl.
    + destruct (generate_fresh its n) as (k & -> & Hle & Hfree & Hbusy).
      simpl. rewrite set_disabled_same_id.
      eexists _, _. split; [done|]. simpl. split; [done|]. split; [done|].
      right. split; [by right|]. exists k. done.
    + rewrite set_disabled_same. exists item, n. split; [done|].
      apply eq_None_not_Some in Hin. split; [done|]. split.
      * unfold truthy in Ht. by destruct (Item.id item).
      * by left.
  - destruct (generate_fresh its n) as (k & -> & Hle & Hfree & Hbusy).
    simpl. rewrite set_disabled_same_id.
    eexists _, _. split; [done|]. simpl. split; [done|]. split; [done|].
    right. split; [by left|]. exists k. done.
Qed.









End RenderIds.

(** * The edit-toolbar: enabling and disabling an item *)
Section ToolbarToggle.
Import EditToolbar Dom.

Lemma set_loading_false_same (i : Item.t) :
  Item.loading i = false → Item.set_loading false i = i.
Proof. destruct i. simpl. by intros ->. Qed.

Lemma has_class_modify c ctx sel f ins n :
  has_class c (modify ctx sel f ins n) = has_class c n.
Proof. by destruct n. Qed.

Lemma is_tag_modify t ctx sel f ins n :
  is_tag t (modify ctx sel f ins n) = is_tag t n.
Proof. by destruct n. Qed.

Lemma words_disabled : String.words "disabled" = ["disabled"].
Proof. reflexivity. Qed.

Lemma Forall_links_shown (l l' : list node) :
  (λ e, (tag_of e, shown_of e)) <$> l = (λ e, (tag_of e, shown_of e)) <$> l' →
  Forall (λ a, is_tag "a" a = true → shown_of a = true) l' →
  Forall (λ a, is_tag "a" a = true → shown_of a = true) l.
Proof.
  revert l'. induction l as [|a l IH]; intros [|b l'] Heq H;
    try done.
  rewrite !fmap_cons in Heq. injection Heq as Htag Hshown Hrest.
  apply Forall_cons in H as [Hb H]. constructor; [|by apply (IH l')].
  unfold is_tag in *. by rewrite Htag, Hshown.
Qed.


Lemma toggleEnabled_effect enabled X hl this it :
  get_item this X = Normal it →
  ∃ this',
    toggleEnabled enabled X hl this = Normal this'
    ∧ get_item this' X
      = Normal (Item.set_loading false (Item.set_disabled (negb enabled) it))
    ∧ classes_of <$> outer (has_data_id X) (el this')
      = toggled_classes enabled hl
          <$> (classes_of <$> outer (has_data_id X) (el this))
    ∧ Forall (λ i, has_class "icon" i = true →
                   ∀ c, c ∈ String.words (createIconClass it enabled) →
                        c ∈ classes_of i)
        (below (has_data_id X) false (el this'))
    ∧ (Item.loading it = true →
       Forall (λ a, is_tag "a" a = true → shown_of a = true)
         (below (has_data_id X) false (el this'))).
Proof.
  intros Hit. unfold toggleEnabled. rewrite Hit, bind_Normal_l.
  cbn zeta.
  set (el1 := if Item.loading (Item.set_disabled (negb enabled) it)
              then below_item X (is_tag "a") (set_shown true)
                     (remove_below_item X (has_class "item-loader") (el this))
              else el this).
  set (item2 := if Item.loading (Item.set_disabled (negb enabled) it)
                then Item.set_loading false
                       (Item.set_disabled (negb enabled) it)
                else Item.set_disabled (negb enabled) it).
  assert ((if Item.loading (Item.set_disabled (negb enabled) it)
           then (Item.set_loading false (Item.set_disabled (negb enabled) it),
                 below_item X (is_tag "a") (set_shown true)
                   (remove_below_item X (has_class "item-loader") (el this)))
           else (Item.set_disabled (negb enabled) it, el this))
          = (item2, el1)) as ->.
  { unfold item2, el1. by destruct (Item.loading _). }
  set (el2 := if bool_decide (hl ≠ Some false)
              then on_item X (map_classes (addClass "highlight-animation")) el1
              else el1).
  assert (item2 = Item.set_loading false (Item.set_disabled (negb enabled) it))
    as Hitem2.
  { unfold item2. destruct (Item.loading _) eqn:Hl; [done|].
    symmetry. by apply set_loading_false_same. }
  assert (classes_of <$> outer (has_data_id X) el1
          = classes_of <$> outer (has_data_id X) (el this)) as Hel1.
  { unfold el1. destruct (Item.loading _); [|done].
    unfold below_item, remove_below_item.
    by rewrite outer_modify_below, outer_prune_below. }
  assert (classes_of <$> outer (has_data_id X) el2
          = (λ cs, if bool_decide (hl ≠ Some false)
                   then addClass "highlight-animation" cs else cs)
              <$> (classes_of <$> outer (has_data_id X) (el this))) as Hel2.
  { unfold el2. destruct (bool_decide (hl ≠ Some false)).
    - unfold on_item. by rewrite outer_modify_on, Hel1.
    - by rewrite Hel1, list_fmap_id. }
  assert (Item.loading it = true →
          Forall (λ a, is_tag "a" a = true → shown_of a = true)
            (below (has_data_id X) false el2)) as Hlinks.
  { intros Hl.
    assert (Forall (λ a, is_tag "a" a = true → shown_of a = true)
              (below (has_data_id X) false el1)) as H1.
    { unfold el1. replace (Item.loading _) with true by (by destruct it).
      unfold below_item.
      apply (below_modify_selected X (is_tag "a") (set_shown true)
               (λ a, shown_of a = true)).
      - intros [] Ha; [done|]. discriminate Ha.
      - by intros [].
      - by intros [].
      - intros. apply is_tag_modify. }
    unfold el2. destruct (bool_decide (hl ≠ Some false)); [|done].
    apply (Forall_links_shown _ (below (has_data_id X) false el1)); [|done].
    unfold on_item. by rewrite below_modify_classes. }
  destruct enabled; cbn [negb] in *; eexists; (split; [reflexivity|]).
  - split; [by rewrite <- Hitem2; apply get_item_put with it|].
    split; [|split].
    + cbn [el set_el]. unfold below_item, on_item.
      rewrite outer_modify_below, outer_modify_on, Hel2.
      rewrite <- list_fmap_compose. done.
    + cbn [el set_el]. unfold below_item.
      apply (below_modify_selected X (has_class "icon")).
      * intros [t cs d sh ks|] Hi; [|discriminate Hi].
        intros c Hc. simpl. unfold prependClass. apply elem_of_app. by left.
      * by intros [].
      * by intros [].
      * intros. apply has_class_modify.
    + intros Hl. cbn [el set_el].
      apply (Forall_links_shown _ (below (has_data_id X) false el2));
        [|by apply Hlinks].
      unfold below_item, on_item. by rewrite !below_modify_classes.
  - split; [by rewrite <- Hitem2; apply get_item_put with it|].
    split; [|split].
    + cbn [el set_el]. unfold below_item, on_item.
      rewrite outer_modify_below, outer_modify_on, Hel2.
      rewrite <- list_fmap_compose. done.
    + cbn [el set_el]. unfold below_item.
      apply (below_modify_selected X (has_class "icon")).
      * intros [t cs d sh ks|] Hi; [|discriminate Hi].
        intros c Hc. simpl. unfold prependClass. apply elem_of_app. by left.
      * by intros [].
      * by intros [].
      * intros. apply has_class_modify.
    + intros Hl. cbn [el set_el].
      apply (Forall_links_shown _ (below (has_data_id X) false el2));
        [|by apply Hlinks].
      unfold below_item, on_item. by rewrite !below_modify_classes.
Qed.


End ToolbarToggle.

(** * The edit-toolbar: a dropdown of type select *)
Section ToolbarSelect.
Import EditToolbar Dom.

Lemma removeClass_empty cs : removeClass "" cs = cs.
Proof.
  unfold removeClass. induction cs as [|c cs IH]; [done|].
  rewrite filter_cons, decide_True.
  - by rewrite IH.
  - change (String.words "") with (@nil string). apply not_elem_of_nil.
Qed.

Lemma update_at_same p n e : node_at p n = Some e → update_at p (λ _, e) n = n.
Proof.
  intros Hn. transitivity (update_at p (λ x, x) n).
  - by apply update_at_ext with e.
  - clear Hn. revert n. induction p as [|i p IH]; intros n; [done|].
    destruct n as [t cs d sh ks|]; [|done]. simpl. f_equal.
    by apply list_alter_id.
Qed.

(** The first two spans below the list element are the icon and the title
    of its link. *)
Lemma find_paths_main cs pid lcs lsh ics title more :
  ∃ rest,
    find_paths (is_tag "span") (main_list_item cs pid lcs lsh ics title more)
    = [0; 0] :: [0; 1] :: rest.
Proof. eexists. reflexivity. Qed.

Lemma changeMainListItem_main pp child this cs pid lcs lsh ics title more :
  node_at pp (el this)
  = Some (main_list_item cs pid lcs lsh ics title more) →
  el (changeMainListItem (Some pp) child this)
  = update_at pp
      (λ _, main_list_item cs pid lcs lsh
              (if truthy (Item.icon child)
               then addClass
                      (createIconSupportClass child
                         (negb (Item.disabled child))) ics
               else ics)
              (if truthy (Item.title child)
               then html (js_show (Item.title child)) else title)
              more)
      (el this).
Proof.
  intros Hn. unfold changeMainListItem. rewrite Hn. cbn [el set_el].
  destruct (find_paths_main cs pid lcs lsh ics title more) as [rest ->].
  rewrite !fmap_cons. cbn [lookup list_lookup].
  destruct (truthy (Item.icon child)), (truthy (Item.title child)).
  - rewrite !update_at_app, update_at_twice.
    apply update_at_ext with (main_list_item cs pid lcs lsh ics title more);
      [done|].
    cbn. by rewrite removeClass_empty.
  - rewrite !update_at_app.
    apply update_at_ext with (main_list_item cs pid lcs lsh ics title more);
      [done|].
    cbn. by rewrite removeClass_empty.
  - rewrite !update_at_app.
    by apply update_at_ext
      with (main_list_item cs pid lcs lsh ics title more).
  - symmetry. by apply update_at_same.
Qed.



End ToolbarSelect.

(** * Rendering: one list element per stored item *)
Section RenderElements.
Import EditToolbar Dom.
Variable uniqueId : nat → string.
Hypothesis uniqueId_inj : Inj (=) (=) uniqueId.
Local Arguments generate : simpl never.
Local Arguments foreach : simpl never.

Lemma foreach_preserves {S A : Type} (body : S → A → completion S)
    (I : S → Prop) (P : A → Prop) :
  (∀ a st, P a → I st → ∃ st', body st a = Normal st' ∧ I st') →
  ∀ l st, Forall P l → I st →
    ∃ st', foreach body l st = Normal st' ∧ I st'.
Proof.
  intros Hstep. induction l as [|a l IH]; intros st Hl HI;
    unfold foreach; fold (@foreach S A).
  - by exists st.
  - apply Forall_cons in Hl as [Ha Hl].
    destruct (Hstep a st Ha HI) as (st1 & -> & HI1). simpl. by apply IH.
Qed.

Lemma tagged_app X l l' : tagged X (l ++ l') = tagged X l + tagged X l'.
Proof. unfold tagged. by rewrite fmap_app, concat_app, length_app. Qed.

Lemma tagged_nil X : tagged X [] = 0.
Proof. reflexivity. Qed.

Lemma tagged_outer X t cs d sh ks :
  length (outer (has_data_id X) (Elem t cs d sh ks)) = tagged X ks.
Proof. reflexivity. Qed.

Lemma tagged_item X t cs key sh ks :
  tagged X [Elem t cs (Some key) sh ks]
  = if bool_decide (key = X) then 1 else tagged X ks.
Proof.
  unfold tagged at 1. rewrite fmap_cons, fmap_nil, concat_cons.
  cbn [concat]. rewrite app_nil_r. unfold has_data_id at 1. cbn [data_id_of].
  case_bool_decide as HX.
  - rewrite bool_decide_eq_true_2 by congruence. done.
  - rewrite bool_decide_eq_false_2 by congruence. done.
Qed.

Lemma tagged_plain X t cs sh ks :
  tagged X [Elem t cs None sh ks] = tagged X ks.
Proof.
  unfold tagged at 1. rewrite fmap_cons, fmap_nil, concat_cons.
  cbn [concat]. by rewrite app_nil_r.
Qed.

Lemma tagged_html X s : tagged X (html s) = 0.
Proof. unfold html. by case_bool_decide. Qed.

Lemma tagged_cons X k l : tagged X (k :: l) = tagged X [k] + tagged X l.
Proof. apply (tagged_app X [k] l). Qed.

Lemma tagged_link X lcs ics title :
  tagged X [Elem "a" lcs None true
              [Elem "span" ics None true [];
               Elem "span" ["title"] None true (html title)]] = 0.
Proof.
  rewrite tagged_plain, (tagged_cons X _ (_ :: _)), !tagged_plain.
  by rewrite tagged_html, tagged_nil.
Qed.

Lemma tagged_main X cls key lcs ics title :
  tagged X [Elem "li" cls (Some key) true
              [Elem "a" lcs None true
                 [Elem "span" ics None true [];
                  Elem "span" ["title"] None true (html title)]]]
  = if bool_decide (key = X) then 1 else 0.
Proof. rewrite tagged_item. by rewrite tagged_link. Qed.

Lemma tagged_main_menu X cls key lcs ics title mcs lis :
  tagged X [Elem "li" cls (Some key) true
              [Elem "a" lcs None true
                 [Elem "span" ics None true [];
                  Elem "span" ["title"] None true (html title)];
               Elem "ul" mcs None true lis]]
  = if bool_decide (key = X) then 1 else tagged X lis.
Proof.
  rewrite tagged_item, (tagged_cons X _ (_ :: _)), tagged_link.
  by rewrite tagged_plain.
Qed.

Lemma count_key_insert X key it (its : gmap string Item.t) :
  its !! key = None →
  count_key X (<[key := it]> its)
  = if bool_decide (key = X) then 1 else count_key X its.
Proof.
  intros Hfree. unfold count_key. destruct (decide (key = X)) as [-> | HX].
  - rewrite lookup_insert_eq, (bool_decide_eq_true_2 (X = X)) by done.
    by rewrite bool_decide_eq_true_2.
  - rewrite lookup_insert_ne by done.
    by rewrite (bool_decide_eq_false_2 (key = X)).
Qed.

Lemma parents_known_insert (its : gmap string Item.t) key it :
  parents_known its → its !! key = None →
  (truthy (Item.parentId it) = true →
   is_Some (its !! js_show (Item.parentId it))) →
  parents_known (<[key := it]> its).
Proof.
  intros Hk Hfree Hit key' it' Hlook Ht.
  assert (∀ k, is_Some (its !! k) → is_Some (<[key := it]> its !! k)) as Hmono.
  { intros k Hs. destruct (decide (key = k)) as [-> | Hne].
    - rewrite lookup_insert_eq. by eexists.
    - by rewrite lookup_insert_ne. }
  apply Hmono. destruct (decide (key = key')) as [<- | Hne].
  - rewrite lookup_insert_eq in Hlook. injection Hlook as <-. by apply Hit.
  - rewrite lookup_insert_ne in Hlook by done. by apply (Hk key' it').
Qed.

Lemma checkItemId_fields item its n item' n' :
  checkItemId uniqueId item its n = Normal (item', n') →
  Item.parentId item' = Item.parentId item
  ∧ Item.items item' = Item.items item.
Proof.
  intros Hrun.
  destruct (checkItemId_spec uniqueId uniqueId_inj item its n)
    as (i & m & Hrun' & _ & _ & Hcases).
  rewrite Hrun in Hrun'. injection Hrun' as <- <-.
  by destruct Hcases as [(_ & _ & -> & _) | (_ & k & _ & -> & _)].
Qed.

Lemma createDropdownItem_elements parent kp its0 item st :
  Item.id parent = Some kp → is_Some (its0 !! kp) →
  menu_elements its0 st →
  ∃ st', createDropdownItem uniqueId parent st item = Normal st'
    ∧ menu_elements its0 st'.
Proof.
  destruct st as [[[lis cs] its] n]. unfold menu_elements. simpl.
  intros Hkp Hin (Hmono & Hpar & Htag). unfold createDropdownItem.
  destruct (Item.divider item).
  - eexists. split; [done|]. simpl. split; [done|]. split; [done|].
    intros X. rewrite tagged_app, tagged_plain, tagged_nil. rewrite <- Htag.
    lia.
  - destruct (checkItemId_spec uniqueId uniqueId_inj
                (Item.set_parentId (Item.id parent) item) its n)
      as (item' & n' & Hrun & Hfree & Hid & _).
    destruct (checkItemId_fields _ _ _ _ _ Hrun) as [Hp _].
    rewrite Hrun. simpl. eexists. split; [done|]. simpl.
    split; [|split].
    + intros key Hs. destruct (decide (js_show (Item.id item') = key)) as [<-|].
      * rewrite lookup_insert_eq. by eexists.
      * rewrite lookup_insert_ne by done. by apply Hmono.
    + apply parents_known_insert; [done|done|].
      intros _. rewrite Hp. simpl. rewrite Hkp. simpl. by apply Hmono.
    + intros X. rewrite tagged_app, tagged_item, tagged_plain, tagged_html.
      rewrite count_key_insert by done. rewrite <- Htag.
      case_bool_decide as HX; [|lia].
      subst X. specialize (Htag (js_show (Item.id item'))).
      unfold count_key in Htag at 2. rewrite Hfree in Htag.
      rewrite bool_decide_eq_false_2 in Htag by (by intros [? ?]). lia.
Qed.

Lemma createDropdownMenu_elements parent kp its n :
  Item.id parent = Some kp → is_Some (its !! kp) → parents_known its →
  ∃ lis its' n',
    createDropdownMenu uniqueId parent its n
    = Normal (Elem "ul" ["edit-toolbar-dropdown-menu"] None true lis, its', n')
    ∧ parents_known its'
    ∧ ∀ X, tagged X lis + count_key X its = count_key X its'.
Proof.
  intros Hkp Hin Hpar. unfold createDropdownMenu.
  destruct (foreach_preserves (createDropdownItem uniqueId parent)
              (menu_elements its) (λ _, True)
              (λ a st _, createDropdownItem_elements parent kp its a st Hkp Hin)
              (default [] (Item.items parent)) ([], "", its, n))
    as ([[[lis cs] its'] n'] & -> & _ & Hpar' & Htag).
  - by apply Forall_true.
  - split; [done|]. split; [done|]. intros X. by rewrite tagged_nil.
  - simpl in *. by eexists _, _, _.
Qed.

Lemma renderItem_elements item st :
  truthy (Item.parentId item) = false →
  render_elements st →
  ∃ st', renderItem uniqueId st item = Normal st' ∧ render_elements st'.
Proof.
  destruct st as [[built its] n]. unfold render_elements. simpl.
  intros Htop [Hpar Htag]. unfold renderItem.
  destruct (checkItemId_spec uniqueId uniqueId_inj item its n)
    as (item' & n' & Hrun & Hfree & Hid & _).
  destruct (checkItemId_fields _ _ _ _ _ Hrun) as [Hp _].
  rewrite Hrun. simpl.
  assert (parents_known (<[js_show (Item.id item') := item']> its)) as Hpar1.
  { apply parents_known_insert; [done|done|]. rewrite Hp, Htop. done. }
  destruct (Item.items item') as [subs|] eqn:Hsubs.
  - destruct (createDropdownMenu_elements item' (js_show (Item.id item'))
                (<[js_show (Item.id item') := item']> its) n' Hid)
      as (lis & its2 & n2 & -> & Hpar2 & Htag2); [|done|].
    { rewrite lookup_insert_eq. by eexists. }
    simpl. eexists. split; [done|]. simpl. split; [done|].
    intros X. rewrite fmap_app, tagged_app, Htag.
    cbn [fmap list_fmap snd]. rewrite tagged_main_menu.
    rewrite <- Htag2. rewrite count_key_insert by done.
    case_bool_decide as HX; [|lia].
    subst X. pose proof (Htag2 (js_show (Item.id item'))) as Hkey.
    rewrite count_key_insert, bool_decide_eq_true_2 in Hkey by done.
    assert (count_key (js_show (Item.id item')) its2 ≤ 1)
      by (unfold count_key; case_bool_decide; lia).
    unfold count_key at 1. rewrite Hfree.
    rewrite bool_decide_eq_false_2 by (by intros [? ?]). lia.
  - eexists. split; [done|]. simpl. split; [done|].
    intros X. rewrite fmap_app, tagged_app, Htag.
    cbn [fmap list_fmap snd]. rewrite tagged_main.
    rewrite count_key_insert by done.
    case_bool_decide as HX; [|lia].
    subst X. unfold count_key. rewrite Hfree.
    rewrite bool_decide_eq_false_2 by (by intros [? ?]). lia.
Qed.

Lemma place_skeleton built t cs d sh :
  place built (append_children [skeleton] (Elem t cs d sh []))
  = Elem t cs d sh
      [Elem "div" ["edit-toolbar-container"] None true
         [Text "   ";
          Elem "nav" ["edit-toolbar-nav"] None true
            [Text "       ";
             Elem "ul" ["edit-toolbar-left"] None true
               (chosen built (Elem "ul" ["edit-toolbar-left"] None true []));
             Text "       ";
             Elem "ul" ["edit-toolbar-right"] None true
               (chosen built (Elem "ul" ["edit-toolbar-right"] None true []));
             Text "   "]]].
Proof. reflexivity. Qed.

Lemma tagged_text X s l : tagged X (Text s :: l) = tagged X l.
Proof. reflexivity. Qed.

Lemma tagged_chosen X built :
  tagged X (chosen built (Elem "ul" ["edit-toolbar-left"] None true []))
  + tagged X (chosen built (Elem "ul" ["edit-toolbar-right"] None true []))
  = tagged X built.*2.
Proof.
  unfold chosen. induction built as [|[sd li] built IH]; [done|].
  rewrite !filter_cons, fmap_cons, (tagged_cons X li). cbn [fst snd].
  destruct sd.
  - rewrite decide_True by done. rewrite decide_False by (by intros []).
    rewrite fmap_cons, (tagged_cons X li). cbn [snd]. lia.
  - rewrite decide_False by (by intros []). rewrite decide_True by done.
    rewrite fmap_cons, (tagged_cons X li). cbn [snd]. lia.
Qed.

(** Rendered into an empty element, every stored id tags exactly one
    outermost element, no other id tags any, and every stored item that
    names a parent names a stored one. *)
Lemma render_one_element data this t cs d sh :
  el this = Elem t cs d sh [] →
  Forall (λ it, truthy (Item.parentId it) = false) data →
  ∃ this' its,
    render uniqueId data this = Normal this'
    ∧ items this' = Some its
    ∧ parents_known its
    ∧ ∀ X, length (outer (has_data_id X) (el this')) = count_key X its.
Proof.
  intros Hel Hdata. unfold render.
  destruct (foreach_preserves (renderItem uniqueId) render_elements
              (λ it, truthy (Item.parentId it) = false)
              renderItem_elements data ([], ∅, next_id this) Hdata)
    as ([[built its] n] & -> & Hpar & Htag).
  - split; [|done]. intros key it Hl. simpl in Hl.
    by rewrite lookup_empty in Hl.
  - simpl in Hpar, Htag. eexists _, its.
    split; [reflexivity|]. split; [done|]. split; [done|].
    intros X. cbn [el perform set_next_id set_items set_el].
    rewrite Hel, place_skeleton, tagged_outer, tagged_plain.
    rewrite tagged_text, tagged_plain, tagged_text.
    rewrite (tagged_cons X _ (_ :: _)), tagged_plain, tagged_text.
    rewrite (tagged_cons X _ (_ :: _)), tagged_plain, tagged_text, tagged_nil.
    rewrite <- Htag, <- tagged_chosen. lia.
Qed.

Lemma render_keeps data this this' :
  render uniqueId data this = Normal this' →
  options this' = options this ∧ subscriptions this' = subscriptions this.
Proof.
  unfold render.
  destruct (foreach (renderItem uniqueId) data ([], ∅, next_id this))
    as [[[built its] n]| |]; simpl; [|done|done].
  by intros [= <-].
Qed.

(** A toolbar configured with data and mounted on an empty element: after
    [initialize] it listens, and every stored id has its one element. *)
Lemma initialize_rendered this d0 t cs d sh :
  truthy (url (options this)) = false →
  data (options this) = Some d0 →
  subscriptions this = [] →
  el this = Elem t cs d sh [] →
  Forall (λ it, truthy (Item.parentId it) = false) d0 →
  ∃ this' its,
    initialize uniqueId this = Normal this'
    ∧ listening this'
    ∧ items this' = Some its
    ∧ parents_known its
    ∧ ∀ X, length (outer (has_data_id X) (el this')) = count_key X its.
Proof.
  intros Hurl Hdata Hsubs Hel Hd0.
  destruct (render_one_element d0 this t cs d sh Hel Hd0)
    as (this1 & its & Hrun & Hits & Hpar & Hone).
  destruct (render_keeps d0 this this1 Hrun) as [Hopt Hsub1].
  unfold initialize. rewrite Hurl, Hdata, Hrun. simpl.
  eexists _, its. split; [reflexivity|]. split; [|done].
  unfold listening. simpl. by rewrite Hsub1, Hsubs.
Qed.

(** In such a toolbar item.disable for a stored id leaves the one element of
    that id with the class disabled, and item.enable leaves it without. *)
Lemma rendered_item_toggled this d0 t cs d sh X hl :
  truthy (url (options this)) = false →
  data (options this) = Some d0 →
  subscriptions this = [] →
  el this = Elem t cs d sh [] →
  Forall (λ it, truthy (Item.parentId it) = false) d0 →
  ∃ this',
    initialize uniqueId this = Normal this'
    ∧ ∀ it, get_item this' X = Normal it →
        (∃ this'' e,
           publish (ITEM_DISABLE this') X hl this' = Normal this''
           ∧ outer (has_data_id X) (el this'') = [e]
           ∧ "disabled" ∈ classes_of e)
        ∧ (∃ this'' e,
             publish (ITEM_ENABLE this') X hl this' = Normal this''
             ∧ outer (has_data_id X) (el this'') = [e]
             ∧ "disabled" ∉ classes_of e).
Proof.
  intros Hurl Hdata Hsubs Hel Hd0.
  destruct (initialize_rendered this d0 t cs d sh Hurl Hdata Hsubs Hel Hd0)
    as (this' & its & Hrun & Hl & Hits & _ & Hone).
  exists this'. split; [done|]. intros it Hit.
  assert (length (outer (has_data_id X) (el this')) = 1) as Hlen.
  { rewrite Hone. unfold count_key.
    apply get_item_Normal in Hit as (m & Hm & Hlook).
    rewrite Hits in Hm. injection Hm as <-.
    by rewrite bool_decide_eq_true_2 by by eexists. }
  split.
  - rewrite publish_disable by done.
    destruct (toggleEnabled_effect false X hl this' it Hit)
      as (this'' & -> & _ & Hcls & _).
    destruct (outer (has_data_id X) (el this'')) as [|e [|e' l]] eqn:Ho;
      try (apply (f_equal length) in Hcls;
           rewrite !length_fmap, Hlen in Hcls; discriminate Hcls).
    exists this'', e. split; [done|]. split; [by rewrite Ho|].
    destruct (outer (has_data_id X) (el this')) as [|e0 [|? ?]];
      try discriminate Hlen.
    injection Hcls as ->. unfold toggled_classes. apply addClass_elem. right.
    rewrite words_disabled. by apply list_elem_of_singleton.
  - rewrite publish_enable by done.
    destruct (toggleEnabled_effect true X hl this' it Hit)
      as (this'' & -> & _ & Hcls & _).
    destruct (outer (has_data_id X) (el this'')) as [|e [|e' l]] eqn:Ho;
      try (apply (f_equal length) in Hcls;
           rewrite !length_fmap, Hlen in Hcls; discriminate Hcls).
    exists this'', e. split; [done|]. split; [by rewrite Ho|].
    destruct (outer (has_data_id X) (el this')) as [|e0 [|? ?]];
      try discriminate Hlen.
    injection Hcls as ->. unfold toggled_classes. apply removeClass_absent.
    rewrite words_disabled. by apply list_elem_of_singleton.
Qed.

End RenderElements.

(** * The statements above at the sample toolbar *)
Section SampleToolbar.
Import EditToolbar Dom.

(** The sample after [initialize]: the ids in [this.items], and the entry
    of the colliding button. *)
Example ready_ids :
  ∃ its undo,
    items ready = Some its
    ∧ dom its = {[ "save"; "1"; "2"; "3"; "4" ]}
    ∧ its !! "4" = Some undo
    ∧ Item.title undo = Some "Undo".
Proof.
  do 2 eexists. split; [vm_compute; reflexivity|].
  split; [vm_compute; reflexivity|]. split; vm_compute; reflexivity.
Qed.



(** C9 at the sample's button. *)
Lemma itemLoading_idempotent_witness :
  (publish (ITEM_LOADING ready) "save" None ready
     ≫= (λ this', publish (ITEM_LOADING this') "save" None this'))
  = publish (ITEM_LOADING ready) "save" None ready.
Proof.
  refine (proj2 (itemLoading_idempotent ready "save" None _)).
  reflexivity.
Defined.

(** C8 at the sample configured with a url, the request timing out. *)
Lemma initialize_fetch_failure_witness :
  ∃ this1,
    initialize counterId (configured "tab1" (Some "/toolbar.json"))
    = Normal this1
    ∧ items this1 = None
    ∧ ∃ this2,
        settle counterId (Rejected "timeout") this1 = Normal this2
        ∧ items this2 = None
        ∧ el this2 = el (configured "tab1" (Some "/toolbar.json")).
Proof.
  destruct (initialize_fetch_failure counterId
              (configured "tab1" (Some "/toolbar.json"))
              "/toolbar.json" "timeout")
    as (this1 & Hrun & _ & Hitems & Hel & _ & this2 & Hsettle & _ & Hitems2
        & Hel2 & _); [reflexivity | discriminate |].
  exists this1. split; [done|]. split; [done|].
  exists this2. split; [done|].
  split; [by rewrite Hitems2, Hitems | by rewrite Hel2, Hel].
Defined.

(** C4 at a click on the sample's button, which has no callback. *)
Lemma selectItem_one_action_witness :
  ∃ this',
    selectItem [0; 1; 1; 0] ready = Normal this'
    ∧ trace this'
      = trace ready
          ++ [Emit "husky.edit-toolbar.tab1.item.select"
                (Some (plain (Some "save") (Some "Save") (Some "floppy")))].
Proof.
  refine (proj1 (selectItem_one_action ready [0; 1; 1; 0]
                   (plain (Some "save") (Some "Save") (Some "floppy")) _ _)
            _ _ _); try reflexivity.
  intros H. discriminate H.
Defined.



End SampleToolbar.

(** * The auto-complete widget: sequences of events *)
Section AutoCompleteSequences.
Import AutoComplete.

Lemma run_app es es' this : run (es ++ es') this = run es this ≫= run es'.
Proof.
  revert this. induction es as [|e es IH]; intros this; simpl; [done|].
  destruct (handle e this) as [this1| |]; simpl; [apply IH|done|done].
Qed.

Lemma foldl_add_token_present ts cs :
  (∀ t, t ∈ ts → t ∈ cs) → foldl add_token cs ts = cs.
Proof.
  revert cs. induction ts as [|t ts IH]; intros cs H; simpl; [done|].
  unfold add_token at 2. rewrite bool_decide_eq_true_2.
  - apply IH. intros t' Ht'. apply H. by right.
  - apply H. by left.
Qed.

Lemma addClass_twice classes cs :
  addClass classes (addClass classes cs) = addClass classes cs.
Proof.
  unfold addClass at 1. apply foldl_add_token_present.
  intros t Ht. apply addClass_elem. by right.
Qed.

(** X1: once a key has gone down, whatever the state before, no sequence
    of events makes a handler raise. *)
Theorem events_after_keydown_never_raise (this : autocomplete)
    (es : list event) :
  ∃ this', run (Keydown :: es) this = Normal this'.
Proof.
  simpl. destruct (run_guarded es (on_keydown this)) as (t & Ht & _).
  - unfold guarded. simpl. discriminate.
  - by exists t.
Qed.

Lemma handle_quiet o e this :
  quiet e = true →
  matched this = true → matches this = [] → options this = o →
  (noNewValues o = false ∧ e = Blur ∧ handle e this = Throw TypeError)
  ∨ ∃ this', handle e this = Normal this'
      ∧ matched this' = true ∧ matches this' = [] ∧ options this' = o
      ∧ (e = Blur → ∀ c, c ∈ String.words (failClass o) → c ∈ el_classes this').
Proof.
  intros Hq Hm Hms Ho.
  destruct e as [d| | |c| | | |v]; try discriminate;
    try (right; eexists; split; [reflexivity|]; repeat split; try done).
  simpl. unfold handleBlur, isMatchedExactly, isMatched, closest,
    getClosestMatch.
  rewrite Ho, Hm, Hms. destruct (noNewValues o) eqn:Hn; simpl.
  - right. eexists; split; [reflexivity|]. repeat split; try done.
    intros _ c Hc. simpl. apply addClass_elem. right. by rewrite Ho.
  - by left.
Qed.

Lemma run_quiet o es this :
  forallb quiet es = true →
  matched this = true → matches this = [] → options this = o →
  (noNewValues o = false → run (es ++ [Blur]) this = Throw TypeError)
  ∧ (noNewValues o = true →
     ∃ this', run (es ++ [Blur]) this = Normal this'
       ∧ ∀ c, c ∈ String.words (failClass o) → c ∈ el_classes this').
Proof.
  revert this. induction es as [|e es IH]; intros this Hq Hm Hms Ho.
  - destruct (handle_quiet o Blur this eq_refl Hm Hms Ho)
      as [(Hn & _ & Hthrow)|(this' & Hrun & _ & _ & _ & Hc)].
    + split; intros Hn'; [|congruence]. simpl in *. by rewrite Hthrow.
    + split; intros Hn'.
      * simpl in *. revert Hrun.
        unfold handleBlur, isMatchedExactly, isMatched, closest,
          getClosestMatch. rewrite Ho, Hn', Hm, Hms. done.
      * exists this'. simpl in *. rewrite Hrun. split; [done|]. by apply Hc.
  - simpl in Hq. apply andb_true_iff in Hq as [Hqe Hqes].
    destruct (handle_quiet o e this Hqe Hm Hms Ho)
      as [(Hn & _ & Hthrow)|(this' & Hrun & Hm' & Hms' & Ho' & _)].
    + split; intros Hn'; [|congruence]. simpl. by rewrite Hthrow.
    + simpl. rewrite Hrun. simpl. by apply IH.
Qed.

(** X2: until the first key goes down or the first suggestion is rendered,
    a blur raises when free text is allowed, and flags the field as failed
    when it is not, whatever the start value and whatever was selected or
    typed by other means. *)
Theorem blur_before_first_key (o : options_t) (es : list event) :
  forallb quiet es = true →
  (noNewValues o = false →
   run (es ++ [Blur]) (initialize o) = Throw TypeError)
  ∧ (noNewValues o = true →
     ∃ this', run (es ++ [Blur]) (initialize o) = Normal this'
       ∧ ∀ c, c ∈ String.words (failClass o) → c ∈ el_classes this').
Proof. intros Hq. by apply run_quiet. Qed.

(** X2 for a widget with the default options whose text was set and on which
    a suggestion was selected. *)
Lemma blur_before_first_key_witness :
  run ([Input "anna"; Selected {| id := "7"; name := "anna" |}] ++ [Blur])
      (initialize defaults)
  = Throw TypeError.
Proof.
  refine (proj1 (blur_before_first_key defaults
                   [Input "anna"; Selected {| id := "7"; name := "anna" |}]
                   _) _); reflexivity.
Defined.




Lemma handle_quiet_strict e this :
  quiet e = true →
  noNewValues (options this) = true → matches this = [] →
  ∃ this', handle e this = Normal this'
    ∧ options this' = options this ∧ matches this' = [].
Proof.
  intros Hq Hn Hms.
  destruct e as [d| | |c| | | |v]; try discriminate;
    try (eexists; split; [reflexivity|]; by split).
  simpl. unfold handleBlur, isMatched, getClosestMatch.
  rewrite Hn, Hms, andb_false_r. eexists; split; [reflexivity|]. by split.
Qed.

Lemma handle_keeps_first e this c ms :
  keeps_matches e = true →
  noNewValues (options this) = true →
  matched this = true → matches this = c :: ms →
  ∃ this' ms', handle e this = Normal this'
    ∧ options this' = options this
    ∧ matched this' = true ∧ matches this' = c :: ms'.
Proof.
  intros Hk Hn Hm Hms.
  destruct e as [d| | |c'| | | |v]; try discriminate;
    try (eexists _, ms; split; [reflexivity|]; by repeat split).
  - simpl. unfold handleBlur, isMatched, getClosestMatch.
    rewrite Hn, Hm, Hms. simpl. rewrite (snap_head this c ms Hms). simpl.
    eexists _, ms. split; [reflexivity|]. by repeat split.
  - eexists _, (ms ++ [c']). split; [reflexivity|]. simpl.
    by rewrite Hms.
Qed.

Lemma run_quiet_strict es this :
  forallb quiet es = true →
  noNewValues (options this) = true → matches this = [] →
  ∃ this', run es this = Normal this'
    ∧ options this' = options this ∧ matches this' = [].
Proof.
  revert this. induction es as [|e es IH]; intros this Hq Hn Hms.
  - by exists this.
  - simpl in Hq. apply andb_true_iff in Hq as [Hqe Hqes].
    destruct (handle_quiet_strict e this Hqe Hn Hms)
      as (this1 & Hrun & Ho & Hms1).
    destruct (IH this1 Hqes) as (this2 & Hrun2 & Ho2 & Hms2);
      [by rewrite Ho|done|].
    exists this2. simpl. rewrite Hrun. simpl.
    split; [done|]. split; [by rewrite Ho2|done].
Qed.

Lemma run_keeps_first es this c ms :
  forallb keeps_matches es = true →
  noNewValues (options this) = true →
  matched this = true → matches this = c :: ms →
  ∃ this' ms', run es this = Normal this'
    ∧ options this' = options this
    ∧ matched this' = true ∧ matches this' = c :: ms'.
Proof.
  revert this ms. induction es as [|e es IH]; intros this ms Hk Hn Hm Hms.
  - by exists this, ms.
  - simpl in Hk. apply andb_true_iff in Hk as [Hke Hkes].
    destruct (handle_keeps_first e this c ms Hke Hn Hm Hms)
      as (this1 & ms1 & Hrun & Ho & Hm1 & Hms1).
    destruct (IH this1 ms1 Hkes) as (this2 & ms2 & Hrun2 & Ho2 & Hm2 & Hms2);
      [by rewrite Ho|done|done|].
    exists this2, ms2. simpl. rewrite Hrun. simpl.
    split; [done|]. split; [by rewrite Ho2|done].
Qed.

(** X18: a widget for known values takes, on a blur, the first suggestion
    rendered since the last key went down, whatever was typed or selected
    in between: a suggestion picked further down the list is overwritten
    by the first one. *)
Theorem blur_overrides_selection (this : autocomplete)
    (es1 es2 : list event) (c : suggestion) :
  noNewValues (options this) = true →
  forallb quiet es1 = true →
  forallb keeps_matches es2 = true →
  ∃ this',
    run (Keydown :: es1 ++ Template c :: es2 ++ [Blur]) this = Normal this'
    ∧ field_value this' = name c
    ∧ field_data_id this' = id c
    ∧ ∀ t, t ∈ String.words (successClass (options this)) →
           t ∈ el_classes this'.
Proof.
  intros Hn Hq Hk.
  change (run (Keydown :: es1 ++ Template c :: es2 ++ [Blur]) this)
    with (run (es1 ++ Template c :: es2 ++ [Blur]) (on_keydown this)).
  rewrite run_app.
  destruct (run_quiet_strict es1 (on_keydown this) Hq Hn eq_refl)
    as (this1 & -> & Ho1 & Hms1).
  rewrite bind_Normal_l.
  change (run (Template c :: es2 ++ [Blur]) this1)
    with (run (es2 ++ [Blur]) (on_template c this1)).
  rewrite run_app.
  destruct (run_keeps_first es2 (on_template c this1) c [] Hk)
    as (this2 & ms2 & -> & Ho2 & Hm2 & Hms2).
  - simpl. by rewrite Ho1.
  - done.
  - simpl. by rewrite Hms1.
  - rewrite bind_Normal_l. simpl.
    unfold handleBlur, isMatched, getClosestMatch.
    assert (Ho : options this2 = options this)
      by (rewrite Ho2; simpl; by rewrite Ho1).
    rewrite Ho, Hn, Hm2, Hms2. simpl.
    rewrite (snap_head this2 c ms2 Hms2). simpl.
    eexists; split; [reflexivity|]. split; [done|]. split; [done|].
    intros t Ht. simpl. apply addClass_elem. right. by rewrite Ho.
Qed.

(** X18 at a widget on which the second of two suggestions is selected. *)
Lemma blur_overrides_selection_witness :
  ∃ this',
    run (Keydown :: [Input "an"]
           ++ Template {| id := "7"; name := "anna" |}
           :: [Template {| id := "8"; name := "anton" |};
               Selected {| id := "8"; name := "anton" |};
               Input "anton"]
           ++ [Blur])
        strict_typing
    = Normal this'
    ∧ field_value this' = "anna" ∧ field_data_id this' = "7".
Proof.
  destruct (blur_overrides_selection strict_typing [Input "an"]
              [Template {| id := "8"; name := "anton" |};
               Selected {| id := "8"; name := "anton" |};
               Input "anton"]
              {| id := "7"; name := "anna" |} eq_refl eq_refl eq_refl)
    as (this' & Hrun & Hv & Hd & _).
  exists this'. split; [exact Hrun|]. split; [exact Hv | exact Hd].
Defined.

(** X4: leaving the field twice in a row is leaving it once. *)
Theorem handleBlur_twice (this : autocomplete) :
  handleBlur this ≫= handleBlur = handleBlur this.
Proof.
  unfold handleBlur at 2 3.
  unfold isMatchedExactly, isMatched, closest, getClosestMatch.
  destruct (noNewValues (options this)) eqn:Hn, (matched this) eqn:Hm,
    (matches this) as [|m ms] eqn:Hms; simpl; try rewrite Hn; try done.
  - unfold handleBlur, isMatched, getClosestMatch. simpl.
    rewrite Hn, Hm, Hms. simpl. unfold setFailState. simpl.
    by rewrite addClass_twice.
  - rewrite (snap_head this m ms Hms). simpl.
    unfold handleBlur, isMatched, getClosestMatch. simpl.
    rewrite Hn, Hm, Hms. simpl.
    rewrite (snap_head _ m ms); [|by simpl]. simpl.
    unfold setSuccessState. simpl. by rewrite addClass_twice.
  - unfold handleBlur, isMatched, getClosestMatch. simpl.
    rewrite Hn, Hm. simpl. unfold setFailState. simpl.
    by rewrite addClass_twice.
  - unfold handleBlur, isMatched, getClosestMatch. simpl.
    rewrite Hn, Hm. simpl. unfold setFailState. simpl.
    by rewrite addClass_twice.
  - case_bool_decide as Heq; simpl.
    + rewrite (snap_head this m ms Hms). simpl.
      unfold handleBlur, isMatchedExactly, isMatched, closest,
        getClosestMatch. simpl. rewrite Hn, Hm, Hms. simpl.
      case_bool_decide; simpl; [|done].
      by rewrite (snap_head _ m ms).
    + unfold handleBlur, isMatchedExactly, isMatched, closest,
        getClosestMatch. rewrite Hn, Hm, Hms. simpl.
      by rewrite bool_decide_eq_false_2.
  - unfold handleBlur, isMatchedExactly, isMatched. by rewrite Hn, Hm.
  - unfold handleBlur, isMatchedExactly, isMatched. by rewrite Hn, Hm.
Qed.



(** X6: a widget for known values that was left without a match carries the
    fail class; when a suggestion is rendered afterwards and the field is
    left again, it carries the success class and the fail class at once. *)
Theorem blur_states_accumulate (this : autocomplete) (c : suggestion) :
  noNewValues (options this) = true →
  matched this = false ∨ matches this = [] →
  ∃ this',
    run [Blur; Template c; Blur] this = Normal this'
    ∧ (∀ t, t ∈ String.words (failClass (options this)) →
            t ∈ el_classes this')
    ∧ (∀ t, t ∈ String.words (successClass (options this)) →
            t ∈ el_classes this').
Proof.
  intros Hn Hno.
  assert (H1 : handleBlur this = Normal (setFailState this)).
  { unfold handleBlur, isMatched, getClosestMatch. rewrite Hn.
    destruct Hno as [-> | ->]; [done|]. by rewrite andb_false_r. }
  simpl. rewrite H1. simpl.
  set (this1 := on_template c (setFailState this)).
  assert (Hms : matches this1 = matches this ++ [c]) by done.
  destruct (matches this ++ [c]) as [|m ms] eqn:Happ.
  { by destruct (matches this). }
  unfold handleBlur, isMatched, getClosestMatch.
  change (noNewValues (options this1)) with (noNewValues (options this)).
  rewrite Hn, Hms. simpl.
  rewrite (snap_head this1 m ms Hms). simpl.
  eexists; split; [reflexivity|]. simpl. split.
  - intros t Ht. apply addClass_elem. left. apply addClass_elem. by right.
  - intros t Ht. apply addClass_elem. by right.
Qed.

(** X6 at a strict widget after a key went down. *)
Lemma blur_states_accumulate_witness :
  ∃ this',
    run [Blur; Template {| id := "7"; name := "anna" |}; Blur] strict_typing
    = Normal this'
    ∧ "bad" ∈ el_classes this' ∧ "ok" ∈ el_classes this'.
Proof.
  destruct (blur_states_accumulate strict_typing
              {| id := "7"; name := "anna" |} eq_refl (or_introl eq_refl))
    as (this' & Hrun & Hbad & Hok).
  exists this'. split; [exact Hrun|]. split.
  - apply Hbad. vm_compute. by left.
  - apply Hok. vm_compute. by left.
Defined.

End AutoCompleteSequences.

(** * The edit-toolbar: events that find no item *)
Section ToolbarMissing.
Import EditToolbar Dom Dropdowns.

Lemma createEventName_instances a b p1 p2 :
  instanceName (options a) ≠ instanceName (options b) →
  p1 ∈ postFixes → p2 ∈ postFixes →
  createEventName a p1 ≠ createEventName b p2.
Proof.
  intros Hne H1 H2 H.
  assert (p1 = p2) as <- by eauto using postFix_determined.
  rewrite !createEventName_infix in H. apply (inj (String.app _)) in H.
  apply append_cancel_r in H. by apply infix_inj in H.
Qed.

Lemma publish_unheard this ev id hl :
  listening this →
  ITEM_DISABLE this ≠ ev → ITEM_ENABLE this ≠ ev → ITEM_LOADING this ≠ ev →
  publish ev id hl this = Normal this.
Proof.
  unfold publish, listening. intros -> H1 H2 H3.
  rewrite deliver_cons, bool_decide_eq_false_2, bind_Normal_l by done.
  rewrite deliver_cons, bool_decide_eq_false_2, bind_Normal_l by done.
  by rewrite deliver_cons, bool_decide_eq_false_2 by done.
Qed.

(** X7: a toolbar ignores the events of a toolbar with another instance
    name, and the two events it only emits itself. *)
Theorem publish_other_instance (a b : toolbar) (p id : string)
    (hl : option bool) :
  listening a →
  instanceName (options a) ≠ instanceName (options b) →
  p ∈ postFixes →
  publish (createEventName b p) id hl a = Normal a
  ∧ publish (INITIALIZED a) id hl a = Normal a
  ∧ publish (createEventName a "item.select") id hl a = Normal a.
Proof.
  intros Hl Hne Hp. split; [|split].
  - apply publish_unheard; [done|..];
      apply createEventName_instances; try done; unfold postFixes;
      rewrite !elem_of_cons; auto 10.
  - apply publish_unheard; [done|..];
      intros H; apply createEventName_inj in H; discriminate.
  - apply publish_unheard; [done|..];
      intros H; apply createEventName_inj in H; discriminate.
Qed.

(** X7 at the sample, for the item.disable event of a toolbar named tab2. *)
Lemma publish_other_instance_witness :
  publish (createEventName (blank "tab2") "item.disable") "save" None ready
  = Normal ready.
Proof.
  assert (listening ready) as Hl by (vm_compute; reflexivity).
  refine (proj1 (publish_other_instance ready (blank "tab2") "item.disable"
                   "save" None Hl _ _)).
  - vm_compute. intros H. discriminate H.
  - unfold postFixes. rewrite !elem_of_cons. auto 10.
Defined.

Lemma toggleEnabled_missing enabled X hl this :
  get_item this X = Throw TypeError →
  toggleEnabled enabled X hl this = Throw TypeError.
Proof. unfold toggleEnabled. by intros ->. Qed.

Lemma itemLoading_missing X this :
  get_item this X = Throw TypeError → itemLoading X this = Throw TypeError.
Proof. unfold itemLoading. by intros ->. Qed.

Lemma publish_missing this X hl :
  listening this →
  get_item this X = Throw TypeError →
  publish (ITEM_DISABLE this) X hl this = Throw TypeError
  ∧ publish (ITEM_ENABLE this) X hl this = Throw TypeError
  ∧ publish (ITEM_LOADING this) X hl this = Throw TypeError.
Proof.
  intros Hl Hget.
  rewrite publish_disable, publish_enable, publish_loading by done.
  by rewrite !toggleEnabled_missing, itemLoading_missing.
Qed.



(** X9: a toolbar that waits for its data, or was given none, has made its
    subscriptions and bound its clicks, but [this.items] is undefined: every
    item event and every click on it raises a TypeError.  A failed request
    leaves it so. *)
Theorem events_before_data (uniqueId : nat → string) (this : toolbar)
    (X : string) (hl : option bool) :
  items this = None →
  subscriptions this = [] →
  truthy (url (options this)) = true ∨ data (options this) = None →
  ∃ this1,
    initialize uniqueId this = Normal this1
    ∧ items this1 = None
    ∧ el this1 = el this
    ∧ dom_events this1
      = dom_events this ++ [("click", ".dropdown-toggle"); ("click", "li")]
    ∧ ∀ this2,
        this2 = this1
        ∨ (∃ reason, settle uniqueId (Rejected reason) this1 = Normal this2) →
        publish (ITEM_DISABLE this2) X hl this2 = Throw TypeError
        ∧ publish (ITEM_ENABLE this2) X hl this2 = Throw TypeError
        ∧ publish (ITEM_LOADING this2) X hl this2 = Throw TypeError
        ∧ (∀ target, selectItem target this2 = Throw TypeError)
        ∧ (∀ target n,
             toggleItem target {| widget := this2; body_once := n |}
             = Throw TypeError).
Proof.
  intros Hits Hsubs Hsrc.
  assert (∃ e, initialize uniqueId this
               = Normal (bindCustomEvents (bindDOMEvents (perform e this))))
    as [e Hinit].
  { unfold initialize. destruct (truthy (url (options this))) eqn:Hurl.
    - by eexists.
    - destruct Hsrc as [?| ->]; [done|]. by eexists. }
  eexists. split; [exact Hinit|]. split; [exact Hits|]. split; [done|].
  split.
  { simpl. by rewrite <- app_assoc. }
  intros this2 H2.
  assert (listening this2 ∧ items this2 = None) as [Hl Hnone].
  { destruct H2 as [->|[reason [= <-]]].
    - split; [|exact Hits]. unfold listening. simpl. by rewrite Hsubs.
    - split; [|exact Hits]. unfold listening. simpl. by rewrite Hsubs. }
  assert (Hget : ∀ key, get_item this2 key = Throw TypeError).
  { intros key. unfold get_item. by rewrite Hnone. }
  destruct (publish_missing this2 X hl Hl (Hget X)) as (-> & -> & ->).
  repeat split.
  - intros target. unfold selectItem. by rewrite Hget.
  - intros target n. unfold toggleItem. simpl. by rewrite Hnone.
Qed.

(** X9 at the sample configured with a url. *)
Lemma events_before_data_witness :
  ∃ this1,
    initialize counterId (configured "tab1" (Some "/toolbar.json"))
    = Normal this1
    ∧ publish (ITEM_DISABLE this1) "save" None this1 = Throw TypeError.
Proof.
  destruct (events_before_data counterId
              (configured "tab1" (Some "/toolbar.json")) "save" None
              eq_refl eq_refl (or_introl eq_refl))
    as (this1 & Hinit & _ & _ & _ & H).
  exists this1. split; [exact Hinit|].
  exact (proj1 (H this1 (or_introl eq_refl))).
Defined.

End ToolbarMissing.

(** * The edit-toolbar: opening and closing dropdowns *)
Section ToolbarDropdowns.
Import EditToolbar Dom Dropdowns.

Lemma node_at_app p q n : node_at (p ++ q) n = node_at p n ≫= node_at q.
Proof.
  revert n. induction p as [|i p IH]; intros n; simpl; [done|].
  destruct (children_of n !! i) as [k|]; simpl; [apply IH|done].
Qed.

Lemma node_at_map_classes g i q n :
  node_at (i :: q) (map_classes g n) = node_at (i :: q) n.
Proof. by destruct n. Qed.

Lemma has_class_classes c e : has_class c e = hasClass c (classes_of e).
Proof. destruct e; [done|]. simpl. unfold hasClass.
  by rewrite bool_decide_eq_false_2 by apply not_elem_of_nil. Qed.

Lemma removeClass_without c cs :
  c ∉ cs → String.words c = [c] → removeClass c cs = cs.
Proof.
  intros Hc Hw. unfold removeClass. rewrite Hw.
  induction cs as [|x cs IH]; [done|].
  apply not_elem_of_cons in Hc as [Hne Hc].
  rewrite filter_cons_True.
  - by rewrite IH.
  - intros Hx. apply list_elem_of_singleton in Hx. by subst.
Qed.

(** What a class change on every match below a node leaves at a path. *)
Lemma node_at_modify_all (sel : node → bool) g q k :
  node_at q
    (if sel k then map_classes g (modify nothing sel (map_classes g) true k)
     else modify nothing sel (map_classes g) true k)
  = (λ e, if sel e
          then map_classes g (modify nothing sel (map_classes g) true e)
          else modify nothing sel (map_classes g) true e) <$> node_at q k.
Proof.
  revert k. induction q as [|i q IH]; intros k; [done|].
  assert (node_at (i :: q)
            (if sel k
             then map_classes g (modify nothing sel (map_classes g) true k)
             else modify nothing sel (map_classes g) true k)
          = node_at (i :: q) (modify nothing sel (map_classes g) true k))
    as -> by (destruct (sel k); [apply node_at_map_classes|done]).
  destruct k as [t cs d sh ks|s]; [|done].
  rewrite modify_Elem. simpl. rewrite list_lookup_fmap.
  destruct (ks !! i) as [c|]; simpl; [|done]. apply IH.
Qed.

Lemma node_at_hidden c i q n :
  String.words c = [c] →
  classes_of
    <$> node_at (i :: q)
          (modify nothing (has_class c) (map_classes (removeClass c)) true n)
  = (λ e, removeClass c (classes_of e)) <$> node_at (i :: q) n.
Proof.
  intros Hw. destruct n as [t cs d sh ks|s]; [|done].
  rewrite modify_Elem. simpl. rewrite list_lookup_fmap.
  destruct (ks !! i) as [k|]; simpl; [|done].
  rewrite (node_at_modify_all (has_class c) (removeClass c) q k).
  rewrite <- !option_fmap_compose. apply option_fmap_ext. intros e. simpl.
  destruct (has_class c e) eqn:He.
  - destruct e; [done|discriminate].
  - rewrite modify_classes. symmetry. apply removeClass_without; [|done].
    rewrite has_class_classes in He. unfold hasClass in He.
    by apply bool_decide_eq_false in He.
Qed.

Lemma node_at_hidden_tag (sel : node → bool) g i q n :
  tag_of <$> node_at (i :: q) (modify nothing sel (map_classes g) true n)
  = tag_of <$> node_at (i :: q) n.
Proof.
  destruct n as [t cs d sh ks|s]; [|done].
  rewrite modify_Elem. simpl. rewrite list_lookup_fmap.
  destruct (ks !! i) as [k|]; simpl; [|done].
  rewrite (node_at_modify_all sel g q k).
  rewrite <- !option_fmap_compose. apply option_fmap_ext. intros e. simpl.
  destruct (sel e), e; done.
Qed.

Lemma node_at_update_at_ne p q g n :
  q ≠ p →
  classes_of <$> node_at q (update_at p (map_classes g) n)
  = classes_of <$> node_at q n.
Proof.
  revert q n. induction p as [|i p IH]; intros q n Hne.
  - destruct q as [|j q]; [done|]. simpl update_at.
    by rewrite node_at_map_classes.
  - destruct n as [t cs d sh ks|s]; [|done].
    destruct q as [|j q]; [done|]. simpl.
    rewrite list_lookup_alter. destruct (decide (i = j)) as [->|Hij]; [|done].
    destruct (ks !! j) as [k|]; simpl; [|done].
    apply IH. congruence.
Qed.

Lemma words_is_expanded : String.words "is-expanded" = ["is-expanded"].
Proof. reflexivity. Qed.

Lemma hasClass_removed c cs :
  String.words c = [c] → hasClass c (removeClass c cs) = false.
Proof.
  intros Hw. apply bool_decide_eq_false. intros H.
  apply removeClass_elem in H as [_ H]. apply H. rewrite Hw. by left.
Qed.

Lemma hideDropdowns_classes this i q :
  classes_of <$> node_at (i :: q) (el (hideDropdowns this))
  = (λ e, removeClass "is-expanded" (classes_of e))
      <$> node_at (i :: q) (el this).
Proof. exact (node_at_hidden "is-expanded" i q (el this) words_is_expanded). Qed.

Lemma hideDropdowns_none this i q e :
  node_at (i :: q) (el (hideDropdowns this)) = Some e →
  has_class "is-expanded" e = false.
Proof.
  intros He. assert (H := hideDropdowns_classes this i q).
  rewrite He in H. rewrite has_class_classes.
  destruct (node_at (i :: q) (el this)) as [e0|]; [|done].
  injection H as ->. by apply hasClass_removed.
Qed.

(** X10: [hideDropdowns] takes the class is-expanded from every element
    below the widget's element and leaves every other class, so that no
    element below it is expanded afterwards; the element itself, the items
    and the subscriptions stay. *)
Theorem hideDropdowns_closes_all (this : toolbar) (i : nat) (q : path) :
  classes_of <$> node_at (i :: q) (el (hideDropdowns this))
  = (λ e, removeClass "is-expanded" (classes_of e))
      <$> node_at (i :: q) (el this)
  ∧ (∀ e, node_at (i :: q) (el (hideDropdowns this)) = Some e →
          has_class "is-expanded" e = false)
  ∧ classes_of (el (hideDropdowns this)) = classes_of (el this)
  ∧ items (hideDropdowns this) = items this
  ∧ subscriptions (hideDropdowns this) = subscriptions this
  ∧ trace (hideDropdowns this) = trace this.
Proof.
  split; [apply hideDropdowns_classes|].
  split; [apply hideDropdowns_none|].
  split; [apply modify_classes|done].
Qed.

Lemma list_of_snoc (p : path) i : list_of (p ++ [i]) = p.
Proof. unfold list_of. apply removelast_last. Qed.

(** X11: a click on the link of a dropdown.  When the item of the list
    element around the link is disabled, nothing changes.  Otherwise every
    dropdown below the widget's element is closed, and the clicked one is
    opened when it was closed before: afterwards the elements below the
    widget's element that carry is-expanded are that list element, or none;
    opening leaves one more handler waiting on the body. *)
Theorem toggleItem_opens_one (pg : page) (li : path) (i : nat)
    (link : node) (its : gmap string Item.t) :
  items (widget pg) = Some its →
  node_at (li ++ [i]) (el (widget pg)) = Some link →
  (∀ item, its !! list_id (li ++ [i]) (widget pg) = Some item →
           Item.disabled item = true →
           toggleItem (li ++ [i]) pg = Normal pg)
  ∧ ((∀ item, its !! list_id (li ++ [i]) (widget pg) = Some item →
              Item.disabled item = false) →
     ∃ pg',
       toggleItem (li ++ [i]) pg = Normal pg'
       ∧ items (widget pg') = items (widget pg)
       ∧ trace (widget pg') = trace (widget pg)
       ∧ body_once pg'
         = (if expanded (li ++ [i]) (widget pg) then body_once pg
            else S (body_once pg))
       ∧ ∀ j q e,
           node_at (j :: q) (el (widget pg')) = Some e →
           (has_class "is-expanded" e = true
            ↔ j :: q = li ∧ expanded (li ++ [i]) (widget pg) = false)).
Proof.
  intros Hits Hlink. split.
  - intros item Hitem Hdis. unfold toggleItem. rewrite Hits. simpl.
    rewrite Hitem. simpl. by rewrite Hdis.
  - intros Henabled.
    assert (Hgo : from_option (λ it, negb (Item.disabled it)) true
                    (its !! list_id (li ++ [i]) (widget pg)) = true).
    { destruct (its !! list_id (li ++ [i]) (widget pg)) as [item|] eqn:Hi;
        simpl; [|done]. by rewrite (Henabled item). }
    unfold toggleItem. rewrite Hits. simpl. rewrite Hgo.
    destruct (expanded (li ++ [i]) (widget pg)) eqn:Hvis;
      (eexists; split; [reflexivity|]);
      (split; [done|]); (split; [done|]); (split; [done|]);
      intros j q e He.
    + change (node_at (j :: q) (el (hideDropdowns (widget pg))) = Some e)
        in He.
      rewrite (hideDropdowns_none (widget pg) j q e He).
      split; [done|]. by intros [_ ?].
    + change (node_at (j :: q)
                (update_at (list_of (li ++ [i]))
                   (map_classes (addClass "is-expanded"))
                   (el (hideDropdowns (widget pg)))) = Some e) in He.
      rewrite list_of_snoc in He.
      destruct (decide (j :: q = li)) as [Heq|Hne].
      * rewrite Heq, node_at_update_at in He.
        rewrite node_at_app in Hlink.
        destruct (node_at li (el (widget pg))) as [parent|] eqn:Hp;
          [|done].
        destruct parent as [t cs d sh ks|s]; [|by destruct i].
        assert (Hcs := hideDropdowns_classes (widget pg) j q).
        rewrite Heq, Hp in Hcs. simpl in Hcs.
        assert (Htag := node_at_hidden_tag (has_class "is-expanded")
                          (removeClass "is-expanded") j q (el (widget pg))).
        rewrite Heq, Hp in Htag.
        change (modify nothing (has_class "is-expanded")
                  (map_classes (removeClass "is-expanded")) true
                  (el (widget pg)))
          with (el (hideDropdowns (widget pg))) in Htag.
        destruct (node_at li (el (hideDropdowns (widget pg))))
          as [[t' cs' d' sh' ks'|s']|] eqn:Hp'; try done.
        simpl in He. injection He as <-. simpl. split; [done|]. intros _.
        apply bool_decide_eq_true, addClass_elem. right.
        rewrite words_is_expanded. by left.
      * assert (Hcs := node_at_update_at_ne li (j :: q)
                         (addClass "is-expanded")
                         (el (hideDropdowns (widget pg))) Hne).
        rewrite He in Hcs.
        destruct (node_at (j :: q) (el (hideDropdowns (widget pg))))
          as [e0|] eqn:He0; [|done].
        assert (Hno := hideDropdowns_none (widget pg) j q e0 He0).
        injection Hcs as Hcs.
        rewrite has_class_classes, Hcs, <- has_class_classes, Hno.
        split; [done|]. by intros [? _].
Qed.

(** X11 at the sample: the first click on the link of the dropdown. *)
Lemma toggleItem_opens_one_witness :
  ∃ pg',
    toggleItem [0; 1; 1; 1; 0] {| widget := ready; body_once := 0 |}
    = Normal pg'
    ∧ body_once pg' = 1
    ∧ classes_of <$> node_at [0; 1; 1; 1] (el (widget pg'))
      = Some ["edit-toolbar-item"; "is-expanded"].
Proof.
  assert (∃ its, items ready = Some its ∧ its !! "1" = Some more_item)
    as (its & Hits & Hmore) by (eexists; split; vm_compute; reflexivity).
  assert (∃ link, node_at ([0; 1; 1; 1] ++ [0]) (el ready) = Some link)
    as [link Hlink] by (eexists; vm_compute; reflexivity).
  assert (list_id ([0; 1; 1; 1] ++ [0])
            (widget {| widget := ready; body_once := 0 |}) = "1") as Hid
    by (vm_compute; reflexivity).
  destruct (proj2 (toggleItem_opens_one {| widget := ready; body_once := 0 |}
                     [0; 1; 1; 1] 0 link its Hits Hlink))
    as (pg' & Hrun & _ & _ & Hbody & _).
  { intros item. rewrite Hid, Hmore. intros [= <-].
    vm_compute. reflexivity. }
  exists pg'. split; [exact Hrun|]. split.
  - rewrite Hbody. vm_compute. reflexivity.
  - vm_compute in Hrun. injection Hrun as <-. vm_compute. reflexivity.
Defined.

(** X12: a click on the body while a handler of [toggleItem] waits there
    closes every dropdown below the widget's element, and no handler waits
    afterwards. *)
Theorem click_body_closes_all (pg : page) (j : nat) (q : path) (e : node) :
  0 < body_once pg →
  node_at (j :: q) (el (widget (click_body pg))) = Some e →
  has_class "is-expanded" e = false ∧ body_once (click_body pg) = 0.
Proof.
  intros Hn He. split; [|done].
  unfold click_body in He. simpl in He.
  destruct (body_once pg) as [|n]; [lia|].
  simpl in He. by apply hideDropdowns_none in He.
Qed.

(** X12 at the sample after its dropdown was opened. *)
Lemma click_body_closes_all_witness :
  has_class "is-expanded"
    (main_list_item ["edit-toolbar-item"] (Some "1") ["dropdown-toggle"]
       true ["icon-gear"; "icon"] [Text "More"] more_menu)
  = false.
Proof.
  refine (proj1 (click_body_closes_all
                   {| widget :=
                        set_el (update_at [0; 1; 1; 1]
                                  (map_classes (addClass "is-expanded"))
                                  (el ready)) ready;
                      body_once := 1 |} 0 [1; 1; 1] _ _ _)).
  - simpl. lia.
  - vm_compute. reflexivity.
Defined.

End ToolbarDropdowns.

(** * The edit-toolbar: the loader of an item *)
Section ToolbarLoading.
Import EditToolbar Dom.

Lemma descendants_append new n :
  is_Some (tag_of n) →
  descendants (append_children new n)
  = descendants n ++ concat ((λ c, c :: descendants c) <$> new).
Proof.
  destruct n as [t cs d sh ks|s]; [|by intros [? ?]].
  intros _. simpl. by rewrite fmap_app, concat_app.
Qed.

(** What was appended to [$item] lies below it, next to what lay there. *)
Lemma below_modify_append i new (Q : node → Prop) n :
  (∀ a b, tag_of a = tag_of b → shown_of a = shown_of b → Q b → Q a) →
  Forall Q (concat ((λ c, c :: descendants c) <$> new)) →
  ∀ ins,
    Forall Q (below (has_data_id i) ins n) →
    Forall Q
      (below (has_data_id i) ins
         (modify nothing (has_data_id i) (append_children new) true n)).
Proof.
  intros HQ Hnew.
  induction n as [s | t cs d sh ks IH] using node_induction; intros ins;
    [done|].
  rewrite modify_Elem, !below_Elem.
  induction IH as [|k ks Hk _ IHks]; [done|].
  rewrite !fmap_cons, !concat_cons, !Forall_app.
  intros [[Hins Hbelow] Hrest]. split; [|by apply IHks].
  cbn beta zeta. change (true || nothing k) with true.
  change (true && has_data_id i k) with (has_data_id i k).
  split.
  - destruct ins; [|done]. rewrite Forall_singleton.
    rewrite Forall_singleton in Hins. revert Hins. apply HQ.
    + destruct (has_data_id i k); by destruct k.
    + destruct (has_data_id i k); by destruct k.
  - destruct (has_data_id i k) eqn:Hk'.
    + destruct k as [t' cs' d' sh' ks'|s']; [|done].
      rewrite orb_true_r in Hbelow.
      assert (has_data_id i
                (append_children new
                   (modify nothing (has_data_id i) (append_children new) true
                      (Elem t' cs' d' sh' ks'))) = true) as -> by done.
      rewrite orb_true_r, below_inside.
      rewrite descendants_append by (rewrite modify_tag; by eexists).
      rewrite Forall_app. split; [|done].
      rewrite <- (below_inside (has_data_id i)). by apply Hk.
    + rewrite has_data_id_modify, Hk'. by apply Hk.
Qed.

Lemma outer_modify_append i new n :
  classes_of
    <$> outer (has_data_id i)
          (modify nothing (has_data_id i) (append_children new) true n)
  = classes_of <$> outer (has_data_id i) n
  ∧ Forall (λ e, ∃ ks, children_of e = ks ++ new)
      (outer (has_data_id i)
         (modify nothing (has_data_id i) (append_children new) true n)).
Proof.
  induction n as [s | t cs d sh ks IH] using node_induction; [done|].
  rewrite modify_Elem, !outer_Elem.
  induction IH as [|k ks Hk _ IHks]; [done|].
  rewrite !fmap_cons, !concat_cons, !fmap_app, Forall_app.
  destruct IHks as [-> Hrest]. cbn beta zeta.
  change (true || nothing k) with true.
  change (true && has_data_id i k) with (has_data_id i k).
  destruct (has_data_id i k) eqn:Hk'.
  - destruct k as [t' cs' d' sh' ks'|s']; [|done].
    assert (has_data_id i
              (append_children new
                 (modify nothing (has_data_id i) (append_children new) true
                    (Elem t' cs' d' sh' ks'))) = true) as -> by done.
    split; [done|]. split; [|done]. rewrite Forall_singleton.
    rewrite modify_Elem. by eexists.
  - rewrite has_data_id_modify, Hk'. destruct Hk as [-> Hk].
    split; [done|]. by split.
Qed.

Lemma has_class_absent c e : has_class c e = false ↔ c ∉ classes_of e.
Proof.
  destruct e as [t cs d sh ks|s]; simpl.
  - unfold hasClass. by rewrite bool_decide_eq_false.
  - split; [intros _; apply not_elem_of_nil|done].
Qed.

Lemma omap_cons_None {A B} (f : A → option B) k ks :
  f k = None → omap f (k :: ks) = omap f ks.
Proof. intros H. simpl. by rewrite H. Qed.

(** After [remove] nothing of the selection is left below the item. *)
Lemma below_prune_none i c n :
  ∀ ins,
    Forall (λ e, has_class c e = false)
      (below (has_data_id i) ins
         (prune (has_data_id i) (has_class c) ins n)).
Proof.
  induction n as [s | t cs d sh ks IH] using node_induction; intros ins;
    [done|].
  rewrite prune_Elem, below_Elem.
  induction IH as [|k ks Hk _ IHks]; [done|].
  destruct (ins && has_class c k) eqn:Hsel.
  - erewrite omap_cons_None by (cbn beta; by rewrite Hsel). apply IHks.
  - erewrite omap_cons_Some by (cbn beta; rewrite Hsel; reflexivity).
    rewrite fmap_cons, concat_cons, Forall_app. split; [|apply IHks].
    cbn beta. rewrite has_data_id_prune, Forall_app. split; [|apply Hk].
    destruct ins; [|done]. rewrite Forall_singleton.
    rewrite has_class_absent, prune_classes, <- has_class_absent.
    by destruct (has_class c k).
Qed.

(** A call that keeps a property of class attributes keeps it below the
    item. *)
Lemma below_modify_Forall i ctx sel f (P : list string → Prop) n :
  (∀ e, P (classes_of e) → P (classes_of (f e))) →
  (∀ e, has_data_id i (f e) = has_data_id i e) →
  (∀ e, children_of (f e) = children_of e) →
  ∀ ins ins',
    Forall (λ e, P (classes_of e)) (below (has_data_id i) ins n) →
    Forall (λ e, P (classes_of e))
      (below (has_data_id i) ins (modify ctx sel f ins' n)).
Proof.
  intros HP Hid Hks.
  induction n as [s | t cs d sh ks IH] using node_induction; intros ins ins';
    [done|].
  rewrite modify_Elem, !below_Elem.
  induction IH as [|k ks Hk _ IHks]; [done|].
  rewrite !fmap_cons, !concat_cons, !Forall_app.
  intros [[Hins Hbelow] Hrest]. split; [|by apply IHks].
  cbn beta zeta. split.
  - destruct ins; [|done]. rewrite Forall_singleton.
    rewrite Forall_singleton in Hins.
    destruct (ins' && sel k).
    + apply HP. by rewrite modify_classes.
    + by rewrite modify_classes.
  - destruct (ins' && sel k).
    + rewrite Hid, has_data_id_modify.
      rewrite (below_children _ _ (f _)
                 (modify ctx sel f (ins' || ctx k) k)) by apply Hks.
      by apply Hk.
    + rewrite has_data_id_modify. by apply Hk.
Qed.

Lemma set_loading_disabled b b' it :
  Item.set_loading false (Item.set_disabled b (Item.set_loading b' it))
  = Item.set_loading false (Item.set_disabled b it).
Proof. by destruct it. Qed.

(** X13: item.loading for an item that is not loading marks it as loading,
    hides the links below its element, appends the loader as the last child
    of that element and starts the loader component. *)
Theorem itemLoading_shows_loader (this : toolbar) (X : string)
    (it : Item.t) :
  get_item this X = Normal it →
  Item.loading it = false →
  ∃ this',
    itemLoading X this = Normal this'
    ∧ get_item this' X = Normal (Item.set_loading true it)
    ∧ trace this' = trace this ++ [Start "loader@husky"]
    ∧ classes_of <$> outer (has_data_id X) (el this')
      = classes_of <$> outer (has_data_id X) (el this)
    ∧ Forall (λ e, last (children_of e) = Some loader)
        (outer (has_data_id X) (el this'))
    ∧ Forall (λ a, is_tag "a" a = true → shown_of a = false)
        (below (has_data_id X) false (el this')).
Proof.
  intros Hget Hload. unfold itemLoading. rewrite Hget. simpl.
  rewrite Hload. eexists. split; [reflexivity|].
  split; [by apply get_item_put with it|]. split; [done|].
  cbn [el perform set_el]. unfold on_item, below_item.
  destruct (outer_modify_append X [loader]
              (modify (has_data_id X) (is_tag "a") (set_shown false) false
                 (el this))) as [Hcs Hlast].
  split; [by rewrite Hcs, outer_modify_below|]. split.
  - eapply Forall_impl; [exact Hlast|]. intros e [ks ->]. apply last_snoc.
  - apply below_modify_append.
    + intros a b Ht Hs Hb Ha. rewrite Hs. apply Hb.
      unfold is_tag in *. by rewrite <- Ht.
    + by repeat constructor.
    + apply (below_modify_selected X (is_tag "a") (set_shown false)
               (λ a, shown_of a = false)).
      * intros [] Ha; [done|]. discriminate Ha.
      * by intros [].
      * by intros [].
      * intros. apply is_tag_modify.
Qed.

(** X13 at the sample's button. *)
Lemma itemLoading_shows_loader_witness :
  ∃ this',
    itemLoading "save" ready = Normal this'
    ∧ trace this' = trace ready ++ [Start "loader@husky"].
Proof.
  destruct (itemLoading_shows_loader ready "save"
              (plain (Some "save") (Some "Save") (Some "floppy")))
    as (this' & Hrun & _ & Htrace & _); [reflexivity | reflexivity |].
  exists this'. split; [exact Hrun | exact Htrace].
Defined.

Lemma addClass_keeps_absent c classes cs :
  c ∉ String.words classes → c ∉ cs → c ∉ addClass classes cs.
Proof. intros Hw Hc H. apply addClass_elem in H as [?|?]; tauto. Qed.

Lemma removeClass_keeps_absent c classes cs :
  c ∉ cs → c ∉ removeClass classes cs.
Proof. intros Hc H. apply removeClass_elem in H as [? _]. tauto. Qed.

Lemma prependClass_keeps_absent c classes cs :
  c ∉ String.words classes → c ∉ cs → c ∉ prependClass classes cs.
Proof.
  intros Hw Hc H. unfold prependClass in H.
  apply elem_of_app in H as [?|?]; tauto.
Qed.

(** X14: item.loading followed by item.enable or item.disable brings the
    item back: it is stored as not loading, no loader is left below its
    element and the links below it are shown, provided the icon class the
    item is given is not the loader's class. *)
Theorem loading_then_toggle_restores (this : toolbar) (X : string)
    (it : Item.t) (enabled : bool) (hl : option bool) :
  get_item this X = Normal it →
  "item-loader" ∉ String.words (createIconClass it enabled) →
  ∃ this1 this2,
    itemLoading X this = Normal this1
    ∧ toggleEnabled enabled X hl this1 = Normal this2
    ∧ get_item this2 X
      = Normal (Item.set_loading false
                  (Item.set_disabled (negb enabled) it))
    ∧ Forall (λ e, has_class "item-loader" e = false)
        (below (has_data_id X) false (el this2))
    ∧ Forall (λ a, is_tag "a" a = true → shown_of a = true)
        (below (has_data_id X) false (el this2)).
Proof.
  intros Hget Hicon.
  assert (∃ this1 it1,
            itemLoading X this = Normal this1
            ∧ get_item this1 X = Normal it1
            ∧ Item.loading it1 = true
            ∧ (∀ b, createIconClass it1 b = createIconClass it b)
            ∧ Item.set_loading false (Item.set_disabled (negb enabled) it1)
              = Item.set_loading false (Item.set_disabled (negb enabled) it))
    as (this1 & it1 & Hrun1 & Hget1 & Hload1 & Hicon1 & Hit1).
  { destruct (Item.loading it) eqn:Hload.
    - exists this, it. by rewrite (itemLoading_loading this X it).
    - unfold itemLoading. rewrite Hget. simpl. rewrite Hload.
      eexists _, (Item.set_loading true it). split; [reflexivity|].
      split; [by apply get_item_put with it|]. split; [by destruct it|].
      split; [by destruct it|]. apply set_loading_disabled. }
  destruct (toggleEnabled_effect enabled X hl this1 it1 Hget1)
    as (this2 & Hrun2 & Hget2 & _ & _ & Hlinks).
  exists this1, this2. split; [done|]. split; [done|].
  split; [by rewrite Hget2, Hit1|]. split; [|by apply Hlinks].
  revert Hrun2. unfold toggleEnabled. rewrite Hget1, bind_Normal_l.
  cbn zeta.
  replace (Item.loading (Item.set_disabled (negb enabled) it1)) with true
    by (by destruct it1).
  rewrite !Hicon1. intros [= <-]. cbn [el set_el].
  assert (Forall (λ e, "item-loader" ∉ classes_of e)
            (below (has_data_id X) false
               (below_item X (is_tag "a") (set_shown true)
                  (remove_below_item X (has_class "item-loader")
                     (el this1))))) as H1.
  { unfold below_item, remove_below_item.
    apply (below_modify_Forall X _ _ _ (λ cs, "item-loader" ∉ cs)).
    - by intros [].
    - by intros [].
    - by intros [].
    - eapply Forall_impl; [apply below_prune_none|].
      intros e. by rewrite has_class_absent. }
  assert (∀ el0 g,
            (∀ cs, "item-loader" ∉ cs → "item-loader" ∉ g cs) →
            ∀ ctx sel ins',
              Forall (λ e, "item-loader" ∉ classes_of e)
                (below (has_data_id X) false el0) →
              Forall (λ e, "item-loader" ∉ classes_of e)
                (below (has_data_id X) false
                   (modify ctx sel (map_classes g) ins' el0))) as Hpass.
  { intros el0 g Hg ctx sel ins'.
    apply (below_modify_Forall X _ _ _ (λ cs, "item-loader" ∉ cs)).
    - intros []; simpl; [apply Hg|done].
    - by intros [].
    - by intros []. }
  assert (Forall (λ e, "item-loader" ∉ classes_of e)
            (below (has_data_id X) false
               (if bool_decide (hl ≠ Some false)
                then on_item X (map_classes (addClass "highlight-animation"))
                       (below_item X (is_tag "a") (set_shown true)
                          (remove_below_item X (has_class "item-loader")
                             (el this1)))
                else below_item X (is_tag "a") (set_shown true)
                       (remove_below_item X (has_class "item-loader")
                          (el this1))))) as H2.
  { destruct (bool_decide (hl ≠ Some false)); [|done].
    apply Hpass; [|done]. intros cs. apply addClass_keeps_absent.
    intros H. apply list_elem_of_singleton in H. discriminate H. }
  apply (Forall_impl (λ e, "item-loader" ∉ classes_of e));
    [|intros e; by rewrite has_class_absent].
  destruct enabled; unfold below_item, on_item.
  - apply Hpass.
    + intros cs Hcs. apply prependClass_keeps_absent; [done|].
      by apply removeClass_keeps_absent.
    + apply Hpass; [|done]. intros cs. apply removeClass_keeps_absent.
  - apply Hpass.
    + intros cs Hcs. apply prependClass_keeps_absent; [done|].
      by apply removeClass_keeps_absent.
    + apply Hpass; [|done]. intros cs. apply addClass_keeps_absent.
      intros H. apply list_elem_of_singleton in H. discriminate H.
Qed.

(** X14 at the sample's button, enabled again while it is loading. *)
Lemma loading_then_toggle_restores_witness :
  ∃ this1 this2,
    itemLoading "save" ready = Normal this1
    ∧ toggleEnabled true "save" None this1 = Normal this2
    ∧ Forall (λ e, has_class "item-loader" e = false)
        (below (has_data_id "save") false (el this2)).
Proof.
  destruct (loading_then_toggle_restores ready "save"
              (plain (Some "save") (Some "Save") (Some "floppy")) true None)
    as (this1 & this2 & Hrun1 & Hrun2 & _ & Hnone & _).
  - reflexivity.
  - vm_compute. intros H. apply list_elem_of_singleton in H. discriminate H.
  - exists this1, this2. split; [exact Hrun1|]. split; [exact Hrun2|].
    exact Hnone.
Defined.

End ToolbarLoading.

(** * Rendering: the list elements *)
Section RenderLists.
Import EditToolbar Dom.
Variable uniqueId : nat → string.
Hypothesis uniqueId_inj : Inj (=) (=) uniqueId.
Local Arguments generate : simpl never.
Local Arguments foreach : simpl never.












End RenderLists.

(** * The statements on rendering at the sample *)
Section RenderListsSample.
Import EditToolbar Dom.




End RenderListsSample.

(** * The edit-toolbar: a click on an entry of a dropdown *)
Section ToolbarEntryClick.
Import EditToolbar Dom.

Lemma head_filter_below (P : path → bool) i (l : list path) :
  head (filter (λ q, P q) ((i ::.) <$> l))
  = (i ::.) <$> head (filter (λ q, P (i :: q)) l).
Proof.
  induction l as [|q l IH]; [done|].
  rewrite fmap_cons, !filter_cons. cbn beta.
  destruct (P (i :: q)); simpl; [done|exact IH].
Qed.

Lemma head_app_first {A} (l1 l2 : list A) x :
  head l1 = Some x → head (l1 ++ l2) = Some x.
Proof. by destruct l1. Qed.

(** The nearest list element above an entry of a menu is the one the menu
    hangs in. *)
Lemma nearest_grandchild sel pp a b root n m :
  node_at pp root = Some n → sel n = true →
  node_at (pp ++ [a]) root = Some m → sel m = false →
  nearest sel (pp ++ [a; b]) root = Some pp.
Proof.
  revert root. induction pp as [|i pp IH]; intros root Hn Hsel Hm Hnot.
  - injection Hn as <-. unfold nearest. simpl in Hm.
    destruct (children_of root !! a) as [m'|] eqn:Hk; [|done].
    simpl in Hm. injection Hm as ->.
    change (rev_prefixes ([] ++ [a; b])) with [[a]; []].
    rewrite filter_cons, decide_False.
    + rewrite filter_cons, decide_True; [done|]. simpl. by rewrite Hsel.
    + simpl. rewrite Hk. simpl. rewrite Hnot. intros H. exact H.
  - simpl in Hn, Hm.
    destruct (children_of root !! i) as [k|] eqn:Hk; [|done].
    simpl in Hn, Hm.
    specialize (IH k Hn Hsel Hm Hnot). unfold nearest in *.
    change (rev_prefixes ((i :: pp) ++ [a; b]))
      with (((i ::.) <$> rev_prefixes (pp ++ [a; b])) ++ [[]]).
    rewrite filter_app. apply head_app_first.
    assert (head (filter (λ q, from_option sel false (node_at q root))
                    ((i ::.) <$> rev_prefixes (pp ++ [a; b])))
            = Some (i :: pp)) as Hhead.
    { rewrite (head_filter_below
                 (λ q, from_option sel false (node_at q root)) i).
      rewrite (list_filter_iff _
                 (λ q, from_option sel false (node_at q k))).
      - by rewrite IH.
      - intros q. simpl. by rewrite Hk. }
    exact Hhead.
Qed.

(** X19: a click on an entry of a dropdown whose parent is of type select.
    The entry hangs in the menu below the parent's list element, which is
    therefore the nearest list element above it: the click puts the entry's
    title, when it is not empty, and icon classes, when it has an icon,
    into the parent's link, and has the one effect of selecting the
    entry. *)
Theorem click_on_select_entry (this : toolbar) (pp : path) (j : nat)
    (entry : node) (key : string) (child parentItem : Item.t)
    (cs : list string) (pid : option string) (lcs : list string)
    (lsh : bool) (ics : list string) (title : list node)
    (mcs : list string) (lis : list node) :
  node_at pp (el this)
  = Some (main_list_item cs pid lcs lsh ics title
            [Elem "ul" mcs None true lis]) →
  lis !! j = Some entry →
  data_id_of entry = Some key →
  get_item this key = Normal child →
  Item.disabled child = false →
  Item.loading child = false →
  Item.has_subitems child = false →
  truthy (Item.parentId child) = true →
  get_item this (js_show (Item.parentId child)) = Normal parentItem →
  Item.type parentItem = Some "select" →
  ∃ this',
    selectItem (pp ++ [1; j]) this = Normal this'
    ∧ node_at pp (el this')
      = Some (main_list_item cs pid lcs lsh
                (if truthy (Item.icon child)
                 then addClass
                        (createIconSupportClass child
                           (negb (Item.disabled child))) ics
                 else ics)
                (if truthy (Item.title child)
                 then html (js_show (Item.title child)) else title)
                [Elem "ul" mcs None true lis])
    ∧ trace this' = trace this ++ [selection this child]
    ∧ items this' = items this.
Proof.
  intros Hpp Hj Hkey Hchild Hdis Hload Hsub Hpar Hparent Htype.
  assert (Hentry : node_at (pp ++ [1; j]) (el this) = Some entry).
  { rewrite node_at_app, Hpp. simpl. by rewrite Hj. }
  assert (Hnear : nearest (is_tag "li") (pp ++ [1; j]) (el this) = Some pp).
  { apply nearest_grandchild
      with (n := main_list_item cs pid lcs lsh ics title
                   [Elem "ul" mcs None true lis])
           (m := Elem "ul" mcs None true lis); try done.
    by rewrite node_at_app, Hpp. }
  unfold selectItem. rewrite Hentry. simpl. rewrite Hkey. simpl.
  rewrite Hchild. simpl. rewrite Hsub, Hload, Hdis. simpl.
  rewrite Hnear. unfold triggerSelectEvent.
  rewrite Hpar, Hparent, bind_Normal_l.
  rewrite bool_decide_eq_true_2 by done. rewrite bind_Normal_l.
  pose proof (changeMainListItem_main pp child this cs pid lcs lsh ics
                title [Elem "ul" mcs None true lis] Hpp) as Hel.
  assert (Hnode : node_at pp (el (changeMainListItem (Some pp) child this))
                  = Some (main_list_item cs pid lcs lsh
                            (if truthy (Item.icon child)
                             then addClass
                                    (createIconSupportClass child
                                       (negb (Item.disabled child))) ics
                             else ics)
                            (if truthy (Item.title child)
                             then html (js_show (Item.title child))
                             else title)
                            [Elem "ul" mcs None true lis])).
  { by rewrite Hel, node_at_update_at, Hpp. }
  assert (Hkeep : items (changeMainListItem (Some pp) child this)
                  = items this
                  ∧ trace (changeMainListItem (Some pp) child this)
                    = trace this).
  { unfold changeMainListItem. by split. }
  destruct Hkeep as [Hitems Htrace]. unfold selection.
  rewrite Hdis in Hnode. cbn [negb] in Hnode.
  destruct (Item.callback child); eexists; (split; [reflexivity|]);
    (split; [exact Hnode|]);
    (split; [unfold emitEvent; cbn [trace perform]; by rewrite Htrace
            |exact Hitems]).
Qed.

(** X19 at the entry Draft of the sample's dropdown. *)
Lemma click_on_select_entry_witness :
  ∃ this',
    selectItem ([0; 1; 1; 1] ++ [1; 0]) ready = Normal this'
    ∧ node_at [0; 1; 1; 1; 0; 1] (el this')
      = Some (Elem "span" ["title"] None true [Text "Draft"]).
Proof.
  assert (∃ mcs lis entry,
            node_at [0; 1; 1; 1] (el ready)
            = Some (main_list_item ["edit-toolbar-item"] (Some "1")
                      ["dropdown-toggle"] true ["icon-gear"; "icon"]
                      [Text "More"] [Elem "ul" mcs None true lis])
            ∧ lis !! 0 = Some entry ∧ data_id_of entry = Some "2")
    as (mcs & lis & entry & Hpp & Hj & Hkey)
    by (eexists _, _, _; split; [vm_compute; reflexivity|];
        split; vm_compute; reflexivity).
  destruct (click_on_select_entry ready [0; 1; 1; 1] 0 entry "2" draft_item
              more_item ["edit-toolbar-item"] (Some "1") ["dropdown-toggle"]
              true ["icon-gear"; "icon"] [Text "More"] mcs lis Hpp Hj Hkey)
    as (this' & Hrun & Hnode & _);
    try (vm_compute; reflexivity).
  exists this'. split; [exact Hrun|].
  change [0; 1; 1; 1; 0; 1] with ([0; 1; 1; 1] ++ [0; 1]).
  rewrite node_at_app, Hnode. reflexivity.
Defined.

End ToolbarEntryClick.

(** * The edit-toolbar: the classes of an icon *)
Section ToolbarIcons.
Import EditToolbar Dom.




Lemma attributes_modify ctx sel f ins n :
  attributes (modify ctx sel f ins n) = attributes n.
Proof. by destruct n. Qed.

(** A class change on a selection that covers what lies below the item
    changes the attributes found there accordingly. *)
Lemma below_modify_restyle i ctx sel s g n :
  (∀ e, sel e = s (attributes e)) →
  (∀ t, sel (Text t) = false) →
  ∀ ins ins',
    (ins = true → ins' = true) →
    (∀ k, has_data_id i k = true → ctx k = true) ∨ ins' = true →
    attributes
      <$> below (has_data_id i) ins (modify ctx sel (map_classes g) ins' n)
    = restyle s g <$> (attributes <$> below (has_data_id i) ins n).
Proof.
  intros Hsel Htext.
  induction n as [t | t cs d sh ks IH] using node_induction;
    intros ins ins' Hins Hctx; [done|].
  rewrite modify_Elem, !below_Elem.
  induction IH as [|k ks Hk _ IHks]; [done|].
  rewrite !fmap_cons, !concat_cons, !fmap_app, IHks. f_equal.
  cbn beta zeta. f_equal.
  - destruct ins; [|done]. rewrite (Hins eq_refl). rewrite !fmap_cons.
    f_equal. simpl. unfold restyle. rewrite <- Hsel.
    destruct (sel k) eqn:Hk'.
    + destruct k as [t' cs' d' sh' ks'|t']; [done|]. by rewrite Htext in Hk'.
    + apply attributes_modify.
  - assert (has_data_id i
              (if ins' && sel k
               then map_classes g
                      (modify ctx sel (map_classes g) (ins' || ctx k) k)
               else modify ctx sel (map_classes g) (ins' || ctx k) k)
            = has_data_id i k) as ->.
    { destruct (ins' && sel k).
      - by rewrite has_data_id_map_classes, has_data_id_modify.
      - by rewrite has_data_id_modify. }
    rewrite (below_children _ _
               (if ins' && sel k
                then map_classes g
                       (modify ctx sel (map_classes g) (ins' || ctx k) k)
                else modify ctx sel (map_classes g) (ins' || ctx k) k)
               (modify ctx sel (map_classes g) (ins' || ctx k) k)).
    + apply Hk.
      * intros Hi. apply orb_true_iff in Hi as [Hi|Hi].
        -- by rewrite (Hins Hi).
        -- destruct Hctx as [Hctx| ->]; [|done].
           rewrite (Hctx k Hi). apply orb_true_r.
      * destruct Hctx as [Hctx| ->]; [by left|by right].
    + destruct (ins' && sel k); [|done].
      by destruct (modify ctx sel (map_classes g) (ins' || ctx k) k).
Qed.

Lemma removeClass_app classes cs cs' :
  removeClass classes (cs ++ cs')
  = removeClass classes cs ++ removeClass classes cs'.
Proof. unfold removeClass. apply filter_app. Qed.

Lemma filter_none_of (ws l : list string) :
  (∀ x, x ∈ l → x ∈ ws) → filter (λ t, t ∉ ws) l = [].
Proof.
  induction l as [|c l IH]; intros H; [done|].
  rewrite filter_cons, decide_False.
  - apply IH. intros x Hx. apply H. by right.
  - intros Hc. apply Hc, H. by left.
Qed.

Lemma filter_all_of (ws l : list string) :
  (∀ x, x ∈ l → x ∉ ws) → filter (λ t, t ∉ ws) l = l.
Proof.
  induction l as [|c l IH]; intros H; [done|].
  rewrite filter_cons, decide_True.
  - f_equal. apply IH. intros x Hx. apply H. by right.
  - apply H. by left.
Qed.

(** Taking the tokens [ws] off a class attribute that starts with them. *)
Lemma removeClass_prefix classes r :
  (∀ c, c ∈ r → c ∉ String.words classes) →
  removeClass classes (String.words classes ++ r) = r.
Proof.
  intros Hr. rewrite removeClass_app. unfold removeClass.
  rewrite filter_none_of by done. by rewrite filter_all_of.
Qed.

Lemma addClass_fresh c cs :
  String.words c = [c] → c ∉ cs → addClass c cs = cs ++ [c].
Proof.
  intros Hw Hc. unfold addClass. rewrite Hw. simpl. unfold add_token.
  by rewrite bool_decide_eq_false_2.
Qed.

Lemma removeClass_added c cs :
  String.words c = [c] → c ∉ cs → removeClass c (addClass c cs) = cs.
Proof.
  intros Hw Hc. rewrite addClass_fresh, removeClass_app by done.
  unfold removeClass. rewrite Hw.
  rewrite filter_all_of.
  - rewrite filter_none_of; [by rewrite app_nil_r|].
    intros x Hx. done.
  - intros x Hx Hin. apply list_elem_of_singleton in Hin. by subst.
Qed.

Lemma restyle_keeps (P : node → Prop) F (l : list node) :
  Forall P l →
  (∀ e, P e → F (attributes e) = attributes e) →
  F <$> (attributes <$> l) = attributes <$> l.
Proof.
  intros Hl HF. rewrite <- list_fmap_compose.
  apply Forall_fmap_ext_1. eapply Forall_impl; [exact Hl|].
  intros e He. by apply HF.
Qed.

(** X21: item.disable followed by item.enable, both without highlight, for
    an enabled item that is not loading.  When the item's elements do not
    carry the class disabled and are no icons, and the icons below them
    carry the item's icon class in front of classes that are none of its
    icon classes, among them icon, as rendered, then the item is stored as
    before, and its elements and everything below them have the tags,
    data-ids, visibility and classes they had. *)
Theorem disable_enable_round_trip (this : toolbar) (X : string)
    (it : Item.t) :
  get_item this X = Normal it →
  Item.disabled it = false →
  Item.loading it = false →
  Forall (λ e, "disabled" ∉ classes_of e)
    (outer (has_data_id X) (el this)) →
  Forall (λ e,
            (data_id_of e = Some X →
             ("disabled" ∉ classes_of e) ∧ has_class "icon" e = false)
            ∧ (has_class "icon" e = true →
               ∃ r, classes_of e
                    = String.words (createIconClass it true) ++ r
                 ∧ "icon" ∈ r
                 ∧ ∀ c, c ∈ r →
                     (c ∉ String.words (createIconClass it true))
                     ∧ (c ∉ String.words (createIconClass it false))))
    (below (has_data_id X) false (el this)) →
  ∃ this1 this2,
    toggleEnabled false X (Some false) this = Normal this1
    ∧ toggleEnabled true X (Some false) this1 = Normal this2
    ∧ items this2 = items this
    ∧ classes_of <$> outer (has_data_id X) (el this2)
      = classes_of <$> outer (has_data_id X) (el this)
    ∧ attributes <$> below (has_data_id X) false (el this2)
      = attributes <$> below (has_data_id X) false (el this).
Proof.
  intros Hget Hdis Hload Houter Hbelow.
  set (en := createIconClass it true) in *.
  set (dis := createIconClass it false) in *.
  set (gd := λ cs, prependClass dis (removeClass en cs)).
  set (ge := λ cs, prependClass en (removeClass dis cs)).
  set (el1 := below_item X (has_class "icon") (map_classes gd)
                (on_item X (map_classes (addClass "disabled")) (el this))).
  set (this1 := set_el el1 (put_item X (Item.set_disabled true it) this)).
  set (el2 := below_item X (has_class "icon") (map_classes ge)
                (on_item X (map_classes (removeClass "disabled")) el1)).
  set (this2 := set_el el2 (put_item X (Item.set_disabled false
                                          (Item.set_disabled true it))
                              this1)).
  assert (Hrun1 : toggleEnabled false X (Some false) this = Normal this1).
  { unfold toggleEnabled. rewrite Hget, bind_Normal_l. cbn zeta.
    replace (Item.loading (Item.set_disabled (negb false) it)) with false
      by (by destruct it).
    by rewrite bool_decide_eq_false_2 by (by intros H; apply H). }
  assert (Hget1 : get_item this1 X = Normal (Item.set_disabled true it)).
  { by apply (get_item_put this X it). }
  assert (Hrun2 : toggleEnabled true X (Some false) this1 = Normal this2).
  { unfold toggleEnabled. rewrite Hget1, bind_Normal_l. cbn zeta.
    replace (Item.loading (Item.set_disabled (negb true)
                             (Item.set_disabled true it))) with false
      by (by destruct it).
    by rewrite bool_decide_eq_false_2 by (by intros H; apply H). }
  exists this1, this2. split; [done|]. split; [done|]. split; [|split].
  - apply get_item_Normal in Hget as (m & Hm & HX).
    unfold this2, this1, put_item. cbn [items set_el set_items].
    rewrite Hm. cbn [fmap option_fmap option_map]. f_equal.
    rewrite insert_insert_eq.
    replace (Item.set_disabled false (Item.set_disabled true it)) with it
      by (destruct it; simpl in *; by subst).
    by apply insert_id.
  - unfold this2, el2, this1, el1, below_item, on_item. cbn [el set_el].
    rewrite outer_modify_below, outer_modify_on.
    rewrite outer_modify_below, outer_modify_on.
    rewrite <- list_fmap_compose.
    rewrite <- (list_fmap_id (classes_of <$> _)) at 2.
    apply Forall_fmap_ext_1. rewrite Forall_fmap.
    eapply Forall_impl; [exact Houter|]. intros e He. simpl.
    by apply removeClass_added.
  - unfold this2, el2, this1, el1, below_item, on_item. cbn [el set_el].
    rewrite (below_modify_restyle X _ _ (λ p, hasClass "icon" p.2) ge);
      [|intros e; apply has_class_classes|done|done|by left].
    rewrite (below_modify_restyle X _ _
               (λ p, bool_decide (p.1.1.2 = Some X))
               (removeClass "disabled"));
      [|done|done|done|by right].
    rewrite (below_modify_restyle X _ _ (λ p, hasClass "icon" p.2) gd);
      [|intros e; apply has_class_classes|done|done|by left].
    rewrite (below_modify_restyle X _ _
               (λ p, bool_decide (p.1.1.2 = Some X))
               (addClass "disabled"));
      [|done|done|done|by right].
    rewrite <- !list_fmap_compose.
    rewrite <- (list_fmap_id (below _ _ _)) at 2.
    rewrite !list_fmap_compose.
    rewrite (list_fmap_id (below _ _ _)).
    rewrite <- !list_fmap_compose.
    apply Forall_fmap_ext_1.
    eapply Forall_impl; [exact Hbelow|]. intros e [HX Hicon].
    unfold compose, restyle, attributes. cbn [fst snd].
    destruct (decide (data_id_of e = Some X)) as [Hid|Hid].
    + destruct (HX Hid) as [Hnd Hni].
      rewrite has_class_classes in Hni. unfold hasClass in Hni.
      apply bool_decide_eq_false in Hni.
      rewrite (bool_decide_eq_true_2 _ Hid). cbn [fst snd].
      assert (hasClass "icon" (addClass "disabled" (classes_of e)) = false)
        as Hno.
      { apply bool_decide_eq_false. intros H. apply addClass_elem in H.
        destruct H as [H|H]; [done|].
        apply list_elem_of_singleton in H. discriminate H. }
      rewrite Hno. cbn [fst snd]. rewrite (bool_decide_eq_true_2 _ Hid).
      cbn [fst snd]. rewrite removeClass_added by done.
      unfold hasClass. by rewrite (bool_decide_eq_false_2 _ Hni).
    + rewrite (bool_decide_eq_false_2 _ Hid). cbn [fst snd].
      rewrite <- has_class_classes.
      destruct (has_class "icon" e) eqn:Hic.
      * destruct (Hicon eq_refl) as (r & Hcs & Hr & Hnone).
        cbn [fst snd]. rewrite (bool_decide_eq_false_2 _ Hid). cbn [fst snd].
        unfold gd, ge, prependClass. rewrite Hcs.
        rewrite removeClass_prefix by (intros c Hc; by apply Hnone).
        assert (hasClass "icon" (String.words dis ++ r) = true) as ->.
        { apply bool_decide_eq_true. apply elem_of_app. by right. }
        cbn [fst snd].
        by rewrite removeClass_prefix by (intros c Hc; by apply Hnone).
      * cbn [fst snd]. rewrite (bool_decide_eq_false_2 _ Hid). cbn [fst snd].
        by rewrite <- has_class_classes, Hic.
Qed.

(** X21 at the sample's button. *)
Lemma disable_enable_round_trip_witness :
  ∃ this1 this2,
    toggleEnabled false "save" (Some false) ready = Normal this1
    ∧ toggleEnabled true "save" (Some false) this1 = Normal this2
    ∧ items this2 = items ready
    ∧ attributes <$> below (has_data_id "save") false (el this2)
      = attributes <$> below (has_data_id "save") false (el ready).
Proof.
  assert (outer (has_data_id "save") (el ready)
          = [main_list_item ["edit-toolbar-item"] (Some "save") [] true
               ["icon-floppy"; "icon"] [Text "Save"] []]) as Houter
    by (vm_compute; reflexivity).
  assert (below (has_data_id "save") false (el ready)
          = [Elem "a" [] None true
               [Elem "span" ["icon-floppy"; "icon"] None true [];
                Elem "span" ["title"] None true [Text "Save"]];
             Elem "span" ["icon-floppy"; "icon"] None true [];
             Elem "span" ["title"] None true [Text "Save"];
             Text "Save"]) as Hbelow
    by (vm_compute; reflexivity).
  destruct (disable_enable_round_trip ready "save"
              (plain (Some "save") (Some "Save") (Some "floppy")))
    as (this1 & this2 & Hrun1 & Hrun2 & Hitems & _ & Hsame).
  - reflexivity.
  - reflexivity.
  - reflexivity.
  - rewrite Houter. apply Forall_singleton. simpl.
    intros H. apply list_elem_of_singleton in H. discriminate H.
  - rewrite Hbelow. repeat apply Forall_cons_2; try apply Forall_nil_2;
      (split; [discriminate|]); try discriminate.
    intros _. exists ["icon"]. split; [reflexivity|].
    split; [by left|]. intros c Hc.
    apply list_elem_of_singleton in Hc as ->.
    split; intros H; apply list_elem_of_singleton in H; discriminate H.
  - exists this1, this2. split; [exact Hrun1|]. split; [exact Hrun2|].
    split; [exact Hitems | exact Hsame].
Defined.

End ToolbarIcons.
